(** * The request cache and its sidecar codec

    A shallow embedding of [typescript/shared/src/json-sidecar.ts] and of the
    request cache that is built on it ([request-cache.ts]), followed by the
    properties of the two modules.

    Conventions of the embedding.
    - A JavaScript string is a [string]: a sequence of code units, here
      restricted to U+0000..U+00FF.  [String.length] is the [.length] of the
      source, and the UTF-8 encoding of such a string takes one byte below 128
      and two bytes from 128 on.
    - A JSON value is a tree ([json]); an object is the list of its
      properties in property order.  Numbers are integers.
    - The file system, the console, the clock and the network form the
      [world]; an operation of the source that has an effect or that can
      throw is a computation in the monad [M]. *)

From Stdlib Require Import NArith ZArith Ascii String List Lia.
From Stdlib Require Import DecimalString DecimalFacts DecimalPos.
From stdpp Require Import base option list gmap strings.

Local Open Scope string_scope.
Set Warnings "-register-all".

(** ** JavaScript string operations *)

Module JsString.

(** [s.startsWith(p)] *)
Fixpoint startsWith (p s : string) : bool :=
  match p, s with
  | "", _ => true
  | String a p', String b s' => if Ascii.eqb a b then startsWith p' s' else false
  | String _ _, "" => false
  end.

(** [s.indexOf(m)], with [None] for [-1]: the first position at which [m]
    occurs in [s]. *)
Fixpoint indexOf (m s : string) : option nat :=
  if startsWith m s then Some 0
  else match s with
       | "" => None
       | String _ s' => S <$> indexOf m s'
       end.

(** [s.includes(m)] *)
Definition includes (m s : string) : bool :=
  match indexOf m s with Some _ => true | None => false end.

(** [s.slice(n)]: what follows the first [n] code units. *)
Fixpoint slice_from (n : nat) (s : string) : string :=
  match n, s with
  | 0, _ => s
  | S n', String _ s' => slice_from n' s'
  | S _, "" => ""
  end.

(** [s.slice(0, n)]: the first [n] code units. *)
Fixpoint slice_to (n : nat) (s : string) : string :=
  match n, s with
  | 0, _ => ""
  | S n', String a s' => String a (slice_to n' s')
  | S _, "" => ""
  end.

(** The longest prefix of [s] whose code units satisfy [p], and the rest. *)
Fixpoint span (p : ascii -> bool) (s : string) : string * string :=
  match s with
  | "" => ("", "")
  | String a s' =>
      if p a then let (l, r) := span p s' in (String a l, r)
      else ("", s)
  end.

(** [s] without its prefix [p], when it has that prefix. *)
Fixpoint stripPrefix (p s : string) : option string :=
  match p, s with
  | "", _ => Some s
  | String a p', String b s' => if Ascii.eqb a b then stripPrefix p' s' else None
  | String _ _, "" => None
  end.

Fixpoint forallb (p : ascii -> bool) (s : string) : bool :=
  match s with
  | "" => true
  | String a s' => p a && forallb p s'
  end.

Definition isEmpty (s : string) : bool :=
  match s with "" => true | _ => false end.

(** [xs.join(sep)] *)
Fixpoint join (sep : string) (xs : list string) : string :=
  match xs with
  | [] => ""
  | [x] => x
  | x :: xs' => x +:+ sep +:+ join sep xs'
  end.

End JsString.

(** ** SHA-256 ([createHash('sha256')] of [node:crypto]) *)

Module Sha256.

Local Open Scope N_scope.

Definition modulus : N := 4294967296.

Definition plus32 (x y : N) : N := (x + y) mod modulus.
Definition rotr (n x : N) : N :=
  N.lor (N.shiftr x n) ((N.shiftl x (32 - n)) mod modulus).
Definition not32 (x : N) : N := N.lxor x (modulus - 1).

Definition choose (x y z : N) : N := N.lxor (N.land x y) (N.land (not32 x) z).
Definition majority (x y z : N) : N :=
  N.lxor (N.lxor (N.land x y) (N.land x z)) (N.land y z).
Definition big0 (x : N) : N := N.lxor (N.lxor (rotr 2 x) (rotr 13 x)) (rotr 22 x).
Definition big1 (x : N) : N := N.lxor (N.lxor (rotr 6 x) (rotr 11 x)) (rotr 25 x).
Definition small0 (x : N) : N := N.lxor (N.lxor (rotr 7 x) (rotr 18 x)) (N.shiftr x 3).
Definition small1 (x : N) : N := N.lxor (N.lxor (rotr 17 x) (rotr 19 x)) (N.shiftr x 10).

(** The round constants (fractional parts of the cube roots of the first
    64 primes) and the initial state (square roots of the first 8). *)
Definition round_constants : list N :=
  [ 1116352408; 1899447441; 3049323471; 3921009573; 961987163; 1508970993;
    2453635748; 2870763221; 3624381080; 310598401; 607225278; 1426881987;
    1925078388; 2162078206; 2614888103; 3248222580; 3835390401; 4022224774;
    264347078; 604807628; 770255983; 1249150122; 1555081692; 1996064986;
    2554220882; 2821834349; 2952996808; 3210313671; 3336571891; 3584528711;
    113926993; 338241895; 666307205; 773529912; 1294757372; 1396182291;
    1695183700; 1986661051; 2177026350; 2456956037; 2730485921; 2820302411;
    3259730800; 3345764771; 3516065817; 3600352804; 4094571909; 275423344;
    430227734; 506948616; 659060556; 883997877; 958139571; 1322822218;
    1537002063; 1747873779; 1955562222; 2024104815; 2227730452; 2361852424;
    2428436474; 2756734187; 3204031479; 3329325298 ].

Record state := State { sa : N; sb : N; sc : N; sd : N; se : N; sf : N; sg : N; sh : N }.

Definition initial : state :=
  State 1779033703 3144134277 1013904242 2773480762
        1359893119 2600822924 528734635 1541459225.

(** The message padded to a multiple of 64 bytes: a 1 bit, zeros, and the
    length in bits as a 64-bit big-endian number. *)
Definition big_endian (width : nat) (x : N) : list N :=
  List.map (fun i => (N.shiftr x (8 * N.of_nat i)) mod 256) (List.rev (seq 0 width)).

Definition pad (msg : list N) : list N :=
  let len := length msg in
  let zeros := ((64 - (len + 9) mod 64) mod 64)%nat in
  msg ++ [128] ++ repeat 0 zeros ++ big_endian 8 (8 * N.of_nat len).

Fixpoint words (fuel : nat) (bytes : list N) : list N :=
  match fuel, bytes with
  | S fuel', b0 :: b1 :: b2 :: b3 :: rest =>
      (b0 * 16777216 + b1 * 65536 + b2 * 256 + b3) :: words fuel' rest
  | _, _ => []
  end.

(** The message schedule; [recent] holds the words so far, latest first. *)
Fixpoint schedule (n : nat) (recent : list N) : list N :=
  match n with
  | O => List.rev recent
  | S n' =>
      match recent with
      | _ :: w2 :: _ :: _ :: _ :: _ :: w7 :: _ :: _ :: _ :: _ :: _ :: _ :: _
          :: w15 :: w16 :: _ =>
          schedule n'
            (plus32 (plus32 (small1 w2) w7) (plus32 (small0 w15) w16) :: recent)
      | _ => List.rev recent
      end
  end.

Definition round (s : state) (kw : N * N) : state :=
  let t1 := plus32 (plus32 (plus32 (sh s) (big1 (se s)))
                           (plus32 (choose (se s) (sf s) (sg s)) (fst kw))) (snd kw) in
  let t2 := plus32 (big0 (sa s)) (majority (sa s) (sb s) (sc s)) in
  State (plus32 t1 t2) (sa s) (sb s) (sc s) (plus32 (sd s) t1) (se s) (sf s) (sg s).

Definition compress (s : state) (block : list N) : state :=
  let w := schedule 48 (List.rev block) in
  let r := fold_left round (combine round_constants w) s in
  State (plus32 (sa s) (sa r)) (plus32 (sb s) (sb r)) (plus32 (sc s) (sc r))
        (plus32 (sd s) (sd r)) (plus32 (se s) (se r)) (plus32 (sf s) (sf r))
        (plus32 (sg s) (sg r)) (plus32 (sh s) (sh r)).

Fixpoint blocks (fuel : nat) (ws : list N) (s : state) : state :=
  match fuel, ws with
  | S fuel', _ :: _ => blocks fuel' (skipn 16 ws) (compress s (firstn 16 ws))
  | _, _ => s
  end.

Definition digest (msg : list N) : list N :=
  let ws := words (length msg + 72) (pad msg) in
  let s := blocks (length ws) ws initial in
  [sa s; sb s; sc s; sd s; se s; sf s; sg s; sh s].

(** Lowercase hexadecimal, as [digest('hex')] prints it. *)
Definition hex_digit (x : N) : ascii :=
  match x with
  | 0 => "0" | 1 => "1" | 2 => "2" | 3 => "3" | 4 => "4" | 5 => "5" | 6 => "6"
  | 7 => "7" | 8 => "8" | 9 => "9" | 10 => "a" | 11 => "b" | 12 => "c"
  | 13 => "d" | 14 => "e" | _ => "f"
  end%char.

Definition nibble (x : N) (i : N) : ascii := hex_digit ((N.shiftr x (4 * i)) mod 16).

Definition hex_word (x : N) (rest : string) : string :=
  String (nibble x 7) (String (nibble x 6) (String (nibble x 5) (String (nibble x 4)
 (String (nibble x 3) (String (nibble x 2) (String (nibble x 1) (String (nibble x 0)
  rest))))))).

Definition hex (ws : list N) : string := fold_right hex_word "" ws.

(** The UTF-8 bytes of a string of code units below 256. *)
Definition utf8_unit (c : ascii) : list N :=
  let n := N_of_ascii c in
  if n <? 128 then [n] else [192 + N.shiftr n 6; 128 + n mod 64].

Fixpoint utf8 (s : string) : list N :=
  match s with
  | "" => []
  | String c s' => utf8_unit c ++ utf8 s'
  end.

End Sha256.

(** [createHash('sha256')], [hash.update(text)] and [hash.digest('hex')]:
    the hash object accumulates the UTF-8 bytes of its updates. *)
Definition createHash_sha256 : list N := [].
Definition hash_update (h : list N) (text : string) : list N := h ++ Sha256.utf8 text.
Definition hash_digest_hex (h : list N) : string := Sha256.hex (Sha256.digest h).


(** ** JSON values, [JSON.stringify] and [JSON.parse] *)

Inductive json : Type :=
| JNull
| JBool (b : bool)
| JNum (n : Z)
| JStr (s : string)
| JArr (items : list json)
| JObj (props : list (string * json)).

Module Json.

Definition dquote : ascii := "034"%char.
Definition backslash : ascii := "092"%char.
Definition newline : ascii := "010"%char.

(** *** Objects as property lists *)

(** [CreateDataProperty(o, k, v)]: define the own property [k], in place
    when [o] has it already, last otherwise. *)
Fixpoint define_prop {A} (k : string) (v : A) (o : list (string * A)) : list (string * A) :=
  match o with
  | [] => [(k, v)]
  | (k', v') :: o' =>
      if String.eqb k' k then (k, v) :: o' else (k', v') :: define_prop k v o'
  end.

(** [o[k] = v] on a plain object: as [define_prop], except that the name
    [__proto__] reaches the accessor of [Object.prototype] and defines no
    own property. *)
Definition assign_prop {A} (k : string) (v : A) (o : list (string * A)) : list (string * A) :=
  if String.eqb k "__proto__" then o else define_prop k v o.

(** [o[k]] for an own property ([None] is [undefined]). *)
Fixpoint get_prop {A} (k : string) (o : list (string * A)) : option A :=
  match o with
  | [] => None
  | (k', v) :: o' => if String.eqb k' k then Some v else get_prop k o'
  end.

(** *** Serialisation *)

(** The decimal literal of an integer. *)
Definition number_text (n : Z) : string :=
  match n with
  | Z0 => "0"
  | Zpos p => NilEmpty.string_of_uint (Pos.to_uint p)
  | Zneg p => String "-" (NilEmpty.string_of_uint (Pos.to_uint p))
  end.

Definition index_text (i : nat) : string := number_text (Z.of_nat i).

(** [QuoteJSONString]: the two-character escapes, [\u00xx] for the other
    control characters, every other code unit as it is. *)
Definition escape_unit (c : ascii) : string :=
  let n := N_of_ascii c in
  if (n =? 34)%N then String backslash (String dquote "")
  else if (n =? 92)%N then String backslash (String backslash "")
  else if (n =? 8)%N then String backslash "b"
  else if (n =? 12)%N then String backslash "f"
  else if (n =? 10)%N then String backslash "n"
  else if (n =? 13)%N then String backslash "r"
  else if (n =? 9)%N then String backslash "t"
  else if (n <? 32)%N then
    String backslash (String "u" (String "0" (String "0"
      (String (Sha256.nibble n 1) (String (Sha256.nibble n 0) "")))))
  else String c "".

Fixpoint escape (s : string) : string :=
  match s with
  | "" => ""
  | String c s' => escape_unit c +:+ escape s'
  end.

Definition quote (s : string) : string :=
  String dquote (escape s +:+ String dquote "").

(** [SerializeJSONProperty] for a value that is already a JSON tree;
    [gap] is the indentation unit ([""] for the compact form) and [indent]
    the current indentation. *)
Definition bracket (gap indent : string) (opening closing : string)
    (parts : list string) : string :=
  match parts with
  | [] => opening +:+ closing
  | _ =>
      if JsString.isEmpty gap then
        opening +:+ JsString.join "," parts +:+ closing
      else
        let inner := String newline (indent +:+ gap) in
        opening +:+ inner +:+ JsString.join (String "," inner) parts
                +:+ String newline indent +:+ closing
  end.

Definition colon (gap : string) : string :=
  if JsString.isEmpty gap then ":" else ": ".

Fixpoint serialize (gap indent : string) (v : json) : string :=
  match v with
  | JNull => "null"
  | JBool true => "true"
  | JBool false => "false"
  | JNum n => number_text n
  | JStr s => quote s
  | JArr items =>
      bracket gap indent "[" "]" (List.map (serialize gap (indent +:+ gap)) items)
  | JObj props =>
      bracket gap indent "{" "}"
        (List.map (fun kv => quote (fst kv) +:+ colon gap +:+
                             serialize gap (indent +:+ gap) (snd kv)) props)
  end.

(** [JSON.stringify(v)] and [JSON.stringify(v, null, 2)] *)
Definition stringify (v : json) : string := serialize "" "" v.
Definition stringify_indent2 (v : json) : string := serialize "  " "" v.

(** *** Parsing *)

Definition is_ws (c : ascii) : bool :=
  let n := N_of_ascii c in
  ((n =? 32) || (n =? 9) || (n =? 10) || (n =? 13))%N.

Fixpoint skip_ws (s : string) : string :=
  match s with
  | String c s' => if is_ws c then skip_ws s' else s
  | "" => ""
  end.

Definition is_digit (c : ascii) : bool :=
  let n := N_of_ascii c in ((48 <=? n) && (n <=? 57))%N.

Definition hex_value (c : ascii) : option N :=
  let n := N_of_ascii c in
  if ((48 <=? n) && (n <=? 57))%N then Some (n - 48)%N
  else if ((97 <=? n) && (n <=? 102))%N then Some (n - 87)%N
  else if ((65 <=? n) && (n <=? 70))%N then Some (n - 55)%N
  else None.

(** The code unit of [\uXXXX]; the model has the code units below 256. *)
Definition unicode_escape (a b c d : ascii) : option ascii :=
  match hex_value a, hex_value b, hex_value c, hex_value d with
  | Some x3, Some x2, Some x1, Some x0 =>
      if ((x3 =? 0) && (x2 =? 0))%N then Some (ascii_of_N (16 * x1 + x0)) else None
  | _, _, _, _ => None
  end.

Definition simple_escape (e : ascii) : option ascii :=
  let n := N_of_ascii e in
  if (n =? 34)%N then Some dquote
  else if (n =? 92)%N then Some backslash
  else if (n =? 47)%N then Some "/"%char
  else if (n =? 98)%N then Some "008"%char
  else if (n =? 102)%N then Some "012"%char
  else if (n =? 110)%N then Some "010"%char
  else if (n =? 114)%N then Some "013"%char
  else if (n =? 116)%N then Some "009"%char
  else None.

(** The characters of a string literal after its opening quote, up to and
    including the closing quote; the decoded string and what follows. *)
Fixpoint parse_chars (s : string) : option (string * string) :=
  match s with
  | "" => None
  | String c r =>
      if Ascii.eqb c dquote then Some ("", r)
      else if Ascii.eqb c backslash then
        match r with
        | String e r' =>
            if Ascii.eqb e "u" then
              match r' with
              | String h3 (String h2 (String h1 (String h0 r''))) =>
                  match unicode_escape h3 h2 h1 h0, parse_chars r'' with
                  | Some u, Some (str, rest) => Some (String u str, rest)
                  | _, _ => None
                  end
              | _ => None
              end
            else
              match simple_escape e, parse_chars r' with
              | Some u, Some (str, rest) => Some (String u str, rest)
              | _, _ => None
              end
        | "" => None
        end
      else if (N_of_ascii c <? 32)%N then None
      else
        match parse_chars r with
        | Some (str, rest) => Some (String c str, rest)
        | None => None
        end
  end.

(** An integer literal: the digits without a leading zero, and no
    fraction or exponent after them. *)
Definition parse_digits (s : string) : option (N * string) :=
  let (run, rest) := JsString.span is_digit s in
  let leading_zero :=
    match run with String "0" (String _ _) => true | _ => false end in
  let continues :=
    match rest with
    | String c _ => Ascii.eqb c "." || Ascii.eqb c "e" || Ascii.eqb c "E"
    | "" => false
    end in
  if JsString.isEmpty run || leading_zero || continues then None
  else match NilEmpty.uint_of_string run with
       | Some d => Some (N.of_uint d, rest)
       | None => None
       end.

Definition parse_number (s : string) : option (json * string) :=
  match s with
  | String "-" r =>
      match parse_digits r with
      | Some (n, rest) => Some (JNum (- Z.of_N n), rest)
      | None => None
      end
  | _ =>
      match parse_digits s with
      | Some (n, rest) => Some (JNum (Z.of_N n), rest)
      | None => None
      end
  end.

Definition parse_keyword (word : string) (v : json) (s : string)
    : option (json * string) :=
  match JsString.stripPrefix word s with
  | Some rest => Some (v, rest)
  | None => None
  end.

(** A value, the elements of an array after the first and the members of
    an object after the first; [fuel] bounds the depth of the calls. *)
Fixpoint parse_value (fuel : nat) (s : string) : option (json * string) :=
  match fuel with
  | O => None
  | S fuel' =>
      match skip_ws s with
      | "" => None
      | String c r =>
          if Ascii.eqb c "n" then parse_keyword "ull" JNull r
          else if Ascii.eqb c "t" then parse_keyword "rue" (JBool true) r
          else if Ascii.eqb c "f" then parse_keyword "alse" (JBool false) r
          else if Ascii.eqb c dquote then
            match parse_chars r with
            | Some (str, rest) => Some (JStr str, rest)
            | None => None
            end
          else if Ascii.eqb c "[" then
            match skip_ws r with
            | "" => None
            | String c' rest =>
                if Ascii.eqb c' "]" then Some (JArr [], rest)
                else match parse_value fuel' r with
                     | Some (x, rest') => parse_items fuel' [x] rest'
                     | None => None
                     end
            end
          else if Ascii.eqb c "{" then
            match skip_ws r with
            | "" => None
            | String c' rest =>
                if Ascii.eqb c' "}" then Some (JObj [], rest)
                else parse_member fuel' [] r
            end
          else parse_number (String c r)
      end
  end
with parse_items (fuel : nat) (acc : list json) (s : string) : option (json * string) :=
  match fuel with
  | O => None
  | S fuel' =>
      match skip_ws s with
      | "" => None
      | String c r =>
          if Ascii.eqb c "]" then Some (JArr acc, r)
          else if Ascii.eqb c "," then
            match parse_value fuel' r with
            | Some (x, rest) => parse_items fuel' (acc ++ [x]) rest
            | None => None
            end
          else None
      end
  end
with parse_member (fuel : nat) (acc : list (string * json)) (s : string)
    : option (json * string) :=
  match fuel with
  | O => None
  | S fuel' =>
      match skip_ws s with
      | "" => None
      | String c r =>
          if Ascii.eqb c dquote then
            match parse_chars r with
            | Some (k, r1) =>
                match skip_ws r1 with
                | "" => None
                | String c1 r2 =>
                    if Ascii.eqb c1 ":" then
                      match parse_value fuel' r2 with
                      | Some (x, r3) =>
                          match skip_ws r3 with
                          | "" => None
                          | String c3 r4 =>
                              if Ascii.eqb c3 "}" then
                                Some (JObj (define_prop k x acc), r4)
                              else if Ascii.eqb c3 "," then
                                parse_member fuel' (define_prop k x acc) r4
                              else None
                          end
                      | None => None
                      end
                    else None
                end
            | None => None
            end
          else None
      end
  end.

(** [JSON.parse(text)]; [None] is the [SyntaxError]. *)
Definition parse (text : string) : option json :=
  match parse_value (S (String.length text)) text with
  | Some (v, rest) => if JsString.isEmpty (skip_ws rest) then Some v else None
  | None => None
  end.

(** *** Conversions of the language *)

(** [String(v)] *)
Fixpoint toString (v : json) : string :=
  match v with
  | JNull => "null"
  | JBool true => "true"
  | JBool false => "false"
  | JNum n => number_text n
  | JStr s => s
  | JArr items =>
      JsString.join ","
        (List.map (fun x => match x with JNull => "" | _ => toString x end) items)
  | JObj _ => "[object Object]"
  end.

(** Truthiness ([if (v)], [!v]). *)
Definition truthy (v : json) : bool :=
  match v with
  | JNull => false
  | JBool b => b
  | JNum n => negb (n =? 0)%Z
  | JStr s => negb (JsString.isEmpty s)
  | JArr _ | JObj _ => true
  end.

(** [typeof v === 'object'] *)
Definition is_object_type (v : json) : bool :=
  match v with
  | JNull | JArr _ | JObj _ => true
  | _ => false
  end.

(** [Object.entries(v)] of an object or an array. *)
Definition entries (v : json) : list (string * json) :=
  match v with
  | JObj props => props
  | JArr items => imap (fun i x => (index_text i, x)) items
  | _ => []
  end.

(** [v[k]] where [v] is an object or an array and [k] is not an index. *)
Definition member (k : string) (v : json) : option json :=
  match v with
  | JObj props => get_prop k props
  | _ => None
  end.

End Json.


(** ** The world: file system, console, clock and network *)

(** An absolute path is the list of its segments.  [join(dir, name)] adds
    one segment: the names of the two modules ([meta.json], a cache key, a
    hash with its extension) are single segments. *)
Abbreviation path := (list string).

Definition join (dir : path) (name : string) : path := dir ++ [name].
Definition dirname (p : path) : path := removelast p.
(** [p] and the directories above it, the root first. *)
Fixpoint ancestors (p : path) : list path :=
  [] :: match p with
        | [] => []
        | seg :: p' => List.map (cons seg) (ancestors p')
        end.
Definition show_path (p : path) : string :=
  fold_right (fun seg out => String "/" (seg +:+ out)) "" p.

Inductive console_line : Type :=
| Log (text : string)
| Warn (text : string).

Inductive exn : Type :=
| ENOENT (p : path)          (* no such file *)
| EISDIR (p : path)          (* a directory where a file is read *)
| SyntaxError                (* [JSON.parse] *)
| RangeError                 (* a status outside 200..599 *)
| TypeError                  (* a body with a null-body status *)
| NetworkError (why : string)
| IllTyped.                  (* a cache file that is not of the type it is cast to *)

Inductive outcome (A : Type) : Type :=
| Returned (a : A)
| Thrown (e : exn).
Arguments Returned {A} a.
Arguments Thrown {A} e.

(** The argument of [fetch]: a string, a [URL] or a [Request]. *)
Inductive RequestInfo : Type :=
| InputString (url : string)
| InputURL (href : string)
| InputRequest (url : string).

Record RequestInit : Type := mkInit {
  init_method : option string;
  init_body : option string;
  init_headers : list (string * string)
}.

Record Response : Type := mkResponse {
  status : Z;
  statusText : string;
  headers : list (string * string);
  body : string
}.

Record world : Type := World {
  files : gmap path string;
  dirs : gset path;
  console : list console_line;          (* oldest line first *)
  now : Z;                              (* milliseconds, [Date.now()] *)
  requests : list (RequestInfo * option RequestInit)   (* calls of the transport *)
}.

Definition with_files (f : gmap path string) (w : world) : world :=
  World f (dirs w) (console w) (now w) (requests w).
Definition with_dirs (d : gset path) (w : world) : world :=
  World (files w) d (console w) (now w) (requests w).
Definition with_console (c : list console_line) (w : world) : world :=
  World (files w) (dirs w) c (now w) (requests w).

(** Computations with effects on a state [S] that return or throw. *)
Definition Eff (S A : Type) : Type := S -> outcome A * S.
Abbreviation M := (Eff world).

Definition ret {S A} (a : A) : Eff S A := fun s => (Returned a, s).
Definition throw {S A} (e : exn) : Eff S A := fun s => (Thrown e, s).
Definition bind {S A B} (m : Eff S A) (k : A -> Eff S B) : Eff S B :=
  fun s => match m s with
           | (Returned a, s') => k a s'
           | (Thrown e, s') => (Thrown e, s')
           end.
(** [try { m } catch { h }] *)
Definition try_catch {S A} (m : Eff S A) (h : Eff S A) : Eff S A :=
  fun s => match m s with
           | (Returned a, s') => (Returned a, s')
           | (Thrown _, s') => h s'
           end.

Notation "x <- m ;; k" := (bind m (fun x => k))
  (at level 100, m at next level, k at level 200, right associativity).
Notation "m ;;; k" := (bind m (fun _ => k))
  (at level 100, k at level 200, right associativity).

Fixpoint for_each {S A} (f : A -> Eff S unit) (l : list A) : Eff S unit :=
  match l with
  | [] => ret tt
  | x :: l' => f x ;;; for_each f l'
  end.

(** *** [node:fs] *)

Definition existsSync (p : path) : M bool :=
  fun w => (Returned (bool_decide (is_Some (files w !! p)) || bool_decide (p ∈ dirs w)), w).

Definition readFileSync (p : path) : M string :=
  fun w => match files w !! p with
           | Some text => (Returned text, w)
           | None => (Thrown (if bool_decide (p ∈ dirs w) then EISDIR p else ENOENT p), w)
           end.

(** A write succeeds: the failures of a write (no parent directory, a
    directory in the way, a full disk) are outside the model. *)
Definition writeFileSync (p : path) (text : string) : M unit :=
  fun w => (Returned tt, with_files (<[p := text]> (files w)) w).

(** [mkdirSync(p, { recursive: true })]: [p] and the directories above it. *)
Definition mkdirSync_recursive (p : path) : M unit :=
  fun w => (Returned tt, with_dirs (list_to_set (ancestors p) ∪ dirs w) w).

Definition console_log (text : string) : M unit :=
  fun w => (Returned tt, with_console (console w ++ [Log text]) w).
Definition console_warn (text : string) : M unit :=
  fun w => (Returned tt, with_console (console w ++ [Warn text]) w).

Definition Date_now : M Z := fun w => (Returned (now w), w).

(** Traversals of a list inside [Eff], in list order. *)
Fixpoint traverse_indexed {S A B} (f : nat -> A -> Eff S B) (i : nat) (l : list A)
    : Eff S (list B) :=
  match l with
  | [] => ret []
  | x :: l' =>
      y <- f i x ;;
      l'' <- traverse_indexed f (Datatypes.S i) l' ;;
      ret (y :: l'')
  end.

Fixpoint traverse_props {S A B} (f : string -> A -> Eff S B) (l : list (string * A))
    : Eff S (list (string * B)) :=
  match l with
  | [] => ret []
  | kv :: l' =>
      y <- f (fst kv) (snd kv) ;;
      l'' <- traverse_props f l' ;;
      ret ((fst kv, y) :: l'')
  end.

(** The order in which [JSON.stringify(value, replacer)] presents the
    property values to its replacer: a value before what it contains, the
    elements and properties in order, under their index or name and the root
    under the empty name.  A container is presented too; the replacers of
    this development return it as it is, without an effect, so the traversal
    hands them the leaves only. *)
Fixpoint replace_walk {S} (replacer : string -> json -> Eff S json)
    (key : string) (v : json) : Eff S json :=
  match v with
  | JArr items =>
      items' <- traverse_indexed
                  (fun i x => replace_walk replacer (Json.index_text i) x) 0 items ;;
      ret (JArr items')
  | JObj props =>
      props' <- traverse_props (fun k x => replace_walk replacer k x) props ;;
      ret (JObj props')
  | leaf => replacer key leaf
  end.

(** [InternalizeJSONProperty]: the reviver of [JSON.parse(text, reviver)]
    sees every value after what it contains. *)
Fixpoint revive_walk {S} (reviver : string -> json -> Eff S json)
    (key : string) (v : json) : Eff S json :=
  match v with
  | JArr items =>
      items' <- traverse_indexed
                  (fun i x => revive_walk reviver (Json.index_text i) x) 0 items ;;
      reviver key (JArr items')
  | JObj props =>
      props' <- traverse_props (fun k x => revive_walk reviver k x) props ;;
      reviver key (JObj props')
  | leaf => reviver key leaf
  end.

(** ** [json-sidecar.ts] *)

Module JsonSidecar.

Definition SIDECAR_MARKER : string := "__SIDECAR__:".
Definition DEFAULT_THRESHOLD : Z := 1000.

Record SidecarOptions : Type := mkOptions {
  sidecarDir : option path;
  threshold : option Z
}.
Definition no_options : SidecarOptions := mkOptions None None.

(** [DATA_URL_REGEX = /^(data:[^;]+;base64,)(.+)$/].  The class [[^;]+]
    cannot cross a semicolon, so the media type is the whole run up to the
    first one; [.] matches every code unit except a line terminator, and
    [$] only the end of the string.  The two groups of a match. *)
Definition is_line_terminator (c : ascii) : bool :=
  let n := N_of_ascii c in ((n =? 10) || (n =? 13))%N.

Definition not_semicolon (c : ascii) : bool := negb (Ascii.eqb c ";").

Definition DATA_URL_match (value : string) : option (string * string) :=
  match JsString.stripPrefix "data:" value with
  | None => None
  | Some after =>
      let (mediaType, rest) := JsString.span not_semicolon after in
      match JsString.stripPrefix ";base64," rest with
      | None => None
      | Some data =>
          if JsString.isEmpty mediaType || JsString.isEmpty data
             || negb (JsString.forallb (fun c => negb (is_line_terminator c)) data)
          then None
          else Some ("data:" +:+ mediaType +:+ ";base64,", data)
      end
  end.

Definition hashValue (value : string) : string :=
  JsString.slice_to 12 (hash_digest_hex (hash_update createHash_sha256 value)).

Definition hasSidecarRef (value : string) : bool :=
  JsString.includes SIDECAR_MARKER value.

Definition makeSidecarRef (hash : string) : string :=
  SIDECAR_MARKER +:+ hash.

Definition extractSidecarHash (ref : string) : option string :=
  match JsString.indexOf SIDECAR_MARKER ref with
  | None => None
  | Some idx => Some (JsString.slice_from (idx + String.length SIDECAR_MARKER) ref)
  end.

Record Processed : Type := mkProcessed { ref : string; content : string }.

Definition processLargeString (value : string) : Processed :=
  match DATA_URL_match value with
  | Some (prefix, base64Data) =>
      mkProcessed (prefix +:+ makeSidecarRef (hashValue base64Data)) base64Data
  | None =>
      mkProcessed (makeSidecarRef (hashValue value)) value
  end.

Definition restoreSidecarRef (value : string) (sidecarDir : path) : M string :=
  match extractSidecarHash value with
  | None => ret value
  | Some hash =>
      if JsString.isEmpty hash then ret value
      else
        let sidecarPath := join sidecarDir (hash +:+ ".sidecar") in
        present <- existsSync sidecarPath ;;
        if negb present then
          console_warn ("Sidecar file not found: " +:+ show_path sidecarPath) ;;;
          ret value
        else
          content <- readFileSync sidecarPath ;;
          match JsString.indexOf SIDECAR_MARKER value with
          | Some (Datatypes.S markerIdx') =>
              ret (JsString.slice_to (Datatypes.S markerIdx') value +:+ content)
          | _ => ret content
          end
  end.

(** The local [sidecars: Map<string, string>] of [stringify]: [Map.set]
    keeps the place of a key that is there and adds a new key last. *)
Abbreviation Sidecars := (list (string * string)).

Definition Map_set (k v : string) : Eff Sidecars unit :=
  fun m => (Returned tt, Json.define_prop k v m).

Definition replacer (threshold : Z) (_key : string) (val : json) : Eff Sidecars json :=
  match val with
  | JStr s =>
      if (threshold <? Z.of_nat (String.length s))%Z then
        let p := processLargeString s in
        match extractSidecarHash (ref p) with
        | Some hash =>
            if JsString.isEmpty hash then ret (JStr (ref p))
            else Map_set (hash +:+ ".sidecar") (content p) ;;; ret (JStr (ref p))
        | None => ret (JStr (ref p))
        end
      else ret val
  | _ => ret val
  end.

Definition resolve_dir (mainFilePath : path) (options : SidecarOptions) : path :=
  match sidecarDir options with
  | Some d => d
  | None => dirname mainFilePath
  end.

Definition resolve_threshold (options : SidecarOptions) : Z :=
  match threshold options with
  | Some t => t
  | None => DEFAULT_THRESHOLD
  end.

Definition stringify (value : json) (mainFilePath : path) (options : SidecarOptions)
    : M string :=
  let threshold := resolve_threshold options in
  let sidecarDir := resolve_dir mainFilePath options in
  present <- existsSync sidecarDir ;;
  (if negb present then mkdirSync_recursive sidecarDir else ret tt) ;;;
  match replace_walk (replacer threshold) "" value [] with
  | (Thrown e, _) => throw e
  | (Returned replaced, sidecars) =>
      let text := Json.stringify_indent2 replaced in
      for_each (fun entry => writeFileSync (join sidecarDir (fst entry)) (snd entry))
               sidecars ;;;
      ret text
  end.

Definition reviver (sidecarDir : path) (_key : string) (val : json) : M json :=
  match val with
  | JStr s =>
      if hasSidecarRef s then
        restored <- restoreSidecarRef s sidecarDir ;; ret (JStr restored)
      else ret val
  | _ => ret val
  end.

Definition parse (text : string) (mainFilePath : path) (options : SidecarOptions)
    : M json :=
  let sidecarDir := resolve_dir mainFilePath options in
  match Json.parse text with
  | None => throw SyntaxError
  | Some v => revive_walk (reviver sidecarDir) "" v
  end.

Definition writeFile (filePath : path) (value : json) (options : SidecarOptions)
    : M unit :=
  text <- stringify value filePath options ;;
  writeFileSync filePath text.

Definition readFile (filePath : path) (options : SidecarOptions) : M json :=
  text <- readFileSync filePath ;;
  parse text filePath options.


End JsonSidecar.

(** ** [request-cache.ts] *)

Module RequestCache.

(** What the module takes from its surroundings: the directory that
    [join(__dirname, '../../..')] resolves to, the ISO rendering of a
    time ([new Date(t).toISOString()]), the stack frames that
    [getStackTrace] extracts at the call site, and the transport behind
    [fetch], which settles a call made at a given time with a response or
    a failure, at a later time. *)
Record StackInfo : Type := mkStackInfo {
  frames : list string;
  callerFile : option string
}.

Record Env : Type := mkEnv {
  workspace : path;
  toISOString : Z -> string;
  getStackTrace : StackInfo;
  transport : RequestInfo -> option RequestInit -> Z -> outcome Response * Z
}.

Record CachedResponseBody : Type := mkBody {
  body_json : option json;
  body_text : option string
}.

Record CachedResponse : Type := mkCached {
  c_status : Z;
  c_statusText : string;
  c_headers : list (string * string);
  c_body : CachedResponseBody;
  c_timestamp : Z
}.

Record CachePaths : Type := mkPaths {
  folder : path;
  meta : path;
  request : path;
  response : path
}.

(** The object that a [CachedResponse] is when it is serialised; an
    absent field of the body is left out. *)
Definition optional_field (k : string) (v : option json) : list (string * json) :=
  match v with
  | Some x => [(k, x)]
  | None => []
  end.

Definition body_object (b : CachedResponseBody) : json :=
  JObj (optional_field "json" (body_json b)
        ++ optional_field "text" (JStr <$> body_text b)).

Definition response_object (r : CachedResponse) : json :=
  JObj [ ("status", JNum (c_status r));
         ("statusText", JStr (c_statusText r));
         ("headers", JObj (List.map (fun kv => (fst kv, JStr (snd kv))) (c_headers r)));
         ("body", body_object (c_body r));
         ("timestamp", JNum (c_timestamp r)) ].

(** [v.k] on a value read from a file: a [TypeError] on [null] and
    [undefined], [undefined] where there is no such property. *)
Definition js_get (k : string) (v : option json) : M (option json) :=
  match v with
  | None | Some JNull => throw TypeError
  | Some x => ret (Json.member k x)
  end.

(** The casts [as CacheMeta] and [as CachedResponse] of the source are
    not checked.  Where a value read from a cache file is used at its
    declared type and is not of that type, the source goes on with a
    coerced value; the model stops with [IllTyped]. *)
Definition expect_number (v : option json) : M Z :=
  match v with
  | Some (JNum n) => ret n
  | _ => throw IllTyped
  end.

Definition expect_string (v : option json) : M string :=
  match v with
  | Some (JStr s) => ret s
  | _ => throw IllTyped
  end.

Fixpoint string_values (props : list (string * json)) : option (list (string * string)) :=
  match props with
  | [] => Some []
  | (k, JStr s) :: props' =>
      match string_values props' with
      | Some l => Some ((k, s) :: l)
      | None => None
      end
  | _ => None
  end.

Definition expect_headers (v : option json) : M (list (string * string)) :=
  match v with
  | Some (JObj props) =>
      match string_values props with
      | Some l => ret l
      | None => throw IllTyped
      end
  | _ => throw IllTyped
  end.

(** [new Response(body, { status, statusText, headers })]: a
    [RangeError] for a status outside 200..599, a [TypeError] for a body
    with a status that admits none.  The checks of the status text and
    of the header names are not modelled. *)
Definition new_Response (bodyText : string) (status : Z) (statusText : string)
    (headers : list (string * string)) : M Response :=
  if ((status <? 200) || (599 <? status))%Z then throw RangeError
  else if ((status =? 204) || (status =? 205) || (status =? 304))%Z then throw TypeError
  else ret (mkResponse status statusText headers bodyText).

(** [typeof input === 'string' ? input : input.toString()] *)
Definition input_url (input : RequestInfo) : string :=
  match input with
  | InputString url => url
  | InputURL href => href
  | InputRequest _ => "[object Request]"
  end.

(** [Math.round(age / 1000)] *)
Definition round_seconds (age : Z) : Z := ((age + 500) / 1000)%Z.

Section WithEnv.

Context (E : Env).

Definition CACHE_DIR : path := workspace E ++ [".cache"; "requests"].
Definition SIDECAR_DIR : path := workspace E ++ [".cache"; "sidecars"].

Definition fetch (input : RequestInfo) (init : option RequestInit) : M Response :=
  fun w =>
    let (result, settled) := transport E input init (now w) in
    (result,
     World (files w) (dirs w) (console w) settled (requests w ++ [(input, init)])).

Definition normalizeRequestBody (body : json) : json :=
  if negb (Json.truthy body) || negb (Json.is_object_type body) then body
  else
    JObj (fold_left (fun normalized kv => Json.assign_prop (fst kv) (snd kv) normalized)
                    (Json.entries body) []).

Definition getCacheKey (url : string) (body : json) : string :=
  let hash := createHash_sha256 in
  let hash := hash_update hash url in
  let normalized := normalizeRequestBody body in
  let hash := hash_update hash (Json.stringify normalized) in
  JsString.slice_to 16 (hash_digest_hex hash).

Definition getCacheFolder (key : string) : path := join CACHE_DIR key.

Definition getCachePaths (key : string) : CachePaths :=
  let folder := getCacheFolder key in
  mkPaths folder (join folder "meta.json") (join folder "request.json")
          (join folder "response.json").

Definition extractModel (body : json) : option string :=
  match body with
  | JObj props =>
      match Json.get_prop "model" props with
      | Some model => Some (Json.toString model)
      | None => None
      end
  | _ => None
  end.

Definition extractProvider (body : json) : option json :=
  match body with
  | JObj props => Json.get_prop "provider" props
  | _ => None
  end.

Definition extractErrorMessage (body : CachedResponseBody) : option string :=
  match body_json body with
  | Some json =>
      if Json.truthy json && Json.is_object_type json then
        match Json.member "error" json with
        | Some error =>
            if Json.truthy error && Json.is_object_type error then
              match Json.member "message" error with
              | Some (JStr message) => Some message
              | _ => None
              end
            else None
        | None => None
        end
      else None
  | None => None
  end.

Definition shorten (maxLen : nat) (str : string) : string :=
  if (maxLen <? String.length str)%nat
  then JsString.slice_to maxLen str +:+ "..."
  else str.

Definition getResponseSummary (body : CachedResponseBody) : string :=
  let maxLen := 500%nat in
  match body_json body with
  | Some json =>
      if Json.truthy json then shorten maxLen (Json.stringify json)
      else match body_text body with
           | Some text =>
               if JsString.isEmpty text then "" else shorten maxLen text
           | None => ""
           end
  | None =>
      match body_text body with
      | Some text => if JsString.isEmpty text then "" else shorten maxLen text
      | None => ""
      end
  end.

Definition getCachedResponse (url : string) (body : json) : M (option (json * json)) :=
  let key := getCacheKey url body in
  let paths := getCachePaths key in
  hasMeta <- existsSync (meta paths) ;;
  hasResponse <- (if hasMeta then existsSync (response paths) else ret false) ;;
  if negb hasMeta || negb hasResponse then ret None
  else
    try_catch
      (metaText <- readFileSync (meta paths) ;;
       match Json.parse metaText with
       | None => throw SyntaxError
       | Some cachedMeta =>
           responseText <- readFileSync (response paths) ;;
           match Json.parse responseText with
           | None => throw SyntaxError
           | Some cachedResponse => ret (Some (cachedMeta, cachedResponse))
           end
       end)
      (ret None).

Definition meta_object (key url : string) (requestBody : json)
    (response : CachedResponse) (stack : StackInfo) : json :=
  let model := extractModel requestBody in
  let provider := extractProvider requestBody in
  let success := ((200 <=? c_status response) && (c_status response <? 300))%Z in
  let errorMessage := if success then None else extractErrorMessage (c_body response) in
  JObj ([ ("key", JStr key);
          ("url", JStr url);
          ("method", JStr "POST");
          ("model", match model with Some m => JStr m | None => JNull end) ]
        ++ optional_field "provider" provider
        ++ [ ("status", JNum (c_status response));
             ("statusText", JStr (c_statusText response));
             ("timestamp", JNum (c_timestamp response));
             ("timestampISO", JStr (toISOString E (c_timestamp response)));
             ("responseSummary", JStr (getResponseSummary (c_body response)));
             ("success", JBool success) ]
        ++ optional_field "errorMessage" (JStr <$> errorMessage)
        ++ [ ("stackTrace", JArr (List.map JStr (frames stack))) ]
        ++ optional_field "callerFile" (JStr <$> callerFile stack)).

Definition cacheResponse (url : string) (requestBody : json)
    (captured : CachedResponse) (stackInfo : option StackInfo) : M unit :=
  let key := getCacheKey url requestBody in
  let paths := getCachePaths key in
  hasFolder <- existsSync (folder paths) ;;
  (if negb hasFolder then mkdirSync_recursive (folder paths) else ret tt) ;;;
  let stack := match stackInfo with Some s => s | None => getStackTrace E end in
  writeFileSync (meta paths)
    (Json.stringify_indent2 (meta_object key url requestBody captured stack)) ;;;
  hasSidecars <- existsSync SIDECAR_DIR ;;
  (if negb hasSidecars then mkdirSync_recursive SIDECAR_DIR else ret tt) ;;;
  JsonSidecar.writeFile (request paths) requestBody
    (JsonSidecar.mkOptions (Some SIDECAR_DIR) None) ;;;
  JsonSidecar.writeFile (response paths) (response_object captured)
    (JsonSidecar.mkOptions (Some SIDECAR_DIR) None).

(** The header record that the wrapper fills with
    [response.headers.forEach((value, key) => { headers[key] = value })]. *)
Definition headers_record (hs : list (string * string)) : list (string * string) :=
  fold_left (fun record kv => Json.assign_prop (fst kv) (snd kv) record) hs [].

(** [cached.meta.model ?? fallback] inside a template literal. *)
Definition model_or (fallback : string) (model : option json) : string :=
  match model with
  | None | Some JNull => fallback
  | Some m => Json.toString m
  end.

(** The branch of the wrapper that answers from a fresh entry. *)
Definition serve_cached (cachedMeta cachedResponse : json) (age : Z) : M Response :=
  model <- js_get "model" (Some cachedMeta) ;;
  console_log ("[CACHE HIT] " +:+ model_or "unknown" model +:+ " (age: "
               +:+ Json.number_text (round_seconds age) +:+ "s)") ;;;
  cachedBody <- js_get "body" (Some cachedResponse) ;;
  bodyJson <- js_get "json" cachedBody ;;
  bodyText <- match bodyJson with
              | Some j => ret (Json.stringify j)
              | None =>
                  text <- js_get "text" cachedBody ;;
                  match text with
                  | None | Some JNull => ret ""
                  | other => expect_string other
                  end
              end ;;
  cachedStatus <- (v <- js_get "status" (Some cachedResponse) ;; expect_number v) ;;
  cachedStatusText <-
    (v <- js_get "statusText" (Some cachedResponse) ;; expect_string v) ;;
  cachedHeaders <- (v <- js_get "headers" (Some cachedResponse) ;; expect_headers v) ;;
  new_Response bodyText cachedStatus cachedStatusText cachedHeaders.

(** The branch of the wrapper that makes the actual request and stores
    what comes back. *)
Definition fetch_and_store (input : RequestInfo) (init : option RequestInit)
    (url : string) (requestBody : json) (stackInfo : StackInfo) : M Response :=
  let model := extractModel requestBody in
  let provider := extractProvider requestBody in
  let providerInfo :=
    match provider with
    | Some p => if Json.truthy p then " via " +:+ Json.stringify p else ""
    | None => ""
    end in
  console_log ("[CACHE MISS] " +:+ match model with Some m => m | None => url end
               +:+ providerInfo) ;;;
  live <- fetch input init ;;
  let bodyText := body live in
  let capturedBody :=
    match Json.parse bodyText with
    | Some j => mkBody (Some j) None
    | None => mkBody None (Some bodyText)
    end in
  timestamp <- Date_now ;;
  cacheResponse url requestBody
    (mkCached (status live) (statusText live) (headers_record (headers live))
              capturedBody timestamp)
    (Some stackInfo) ;;;
  new_Response bodyText (status live) (statusText live) (headers live).

Record CacheOptions : Type := mkCacheOptions {
  enabled : option bool;
  ttlMs : option Z
}.

Definition createCachedFetch (options : CacheOptions)
    (input : RequestInfo) (init : option RequestInit) : M Response :=
  let enabled := match enabled options with Some b => b | None => true end in
  let ttlMs := match ttlMs options with Some t => t | None => (60 * 60 * 1000)%Z end in
  let url := input_url input in
  let stackInfo := getStackTrace E in
  let isPost :=
    match init ≫= init_method with
    | Some m => String.eqb m "POST"
    | None => false
    end in
  match init ≫= init_body with
  | Some bodyText =>
      if negb enabled || negb isPost || JsString.isEmpty bodyText then fetch input init
      else
        match Json.parse bodyText with
        | None => fetch input init
        | Some requestBody =>
            cached <- getCachedResponse url requestBody ;;
            match cached with
            | Some (cachedMeta, cachedResponse) =>
                current <- Date_now ;;
                timestamp <-
                  (v <- js_get "timestamp" (Some cachedResponse) ;; expect_number v) ;;
                let age := (current - timestamp)%Z in
                if (age <? ttlMs)%Z then serve_cached cachedMeta cachedResponse age
                else
                  model <- js_get "model" (Some cachedMeta) ;;
                  console_log ("[CACHE EXPIRED] " +:+ model_or url model) ;;;
                  fetch_and_store input init url requestBody stackInfo
            | None => fetch_and_store input init url requestBody stackInfo
            end
        end
  | None => fetch input init
  end.

End WithEnv.

End RequestCache.

(** * Vocabulary of the properties *)

(** ** Values *)

(** The keys of an object are pairwise distinct. *)
Definition distinct_keys := fix go (ks : list string) : bool :=
  match ks with
  | [] => true
  | k :: ks' => negb (existsb (String.eqb k) ks') && go ks'
  end.

(** The values that [JSON.parse] can return: no object has a key twice. *)
Fixpoint representable (v : json) : bool :=
  match v with
  | JArr items => forallb representable items
  | JObj props =>
      distinct_keys (List.map fst props)
      && forallb (fun kv => representable (snd kv)) props
  | _ => true
  end.

(** The string leaves of a value, in the order of the traversals. *)
Fixpoint leaves (v : json) : list string :=
  match v with
  | JStr s => [s]
  | JArr items => flat_map leaves items
  | JObj props => flat_map (fun kv => leaves (snd kv)) props
  | _ => []
  end.

(** A value with [f] applied to its string leaves. *)
Fixpoint map_strings (f : string -> string) (v : json) : json :=
  match v with
  | JStr s => JStr (f s)
  | JArr items => JArr (List.map (map_strings f) items)
  | JObj props => JObj (List.map (fun kv => (fst kv, map_strings f (snd kv))) props)
  | other => other
  end.


(** ** The layout of JSON text *)

Module Layout.

(** What may follow a number: nothing that would continue it. *)
Definition number_stops (rest : string) : bool :=
  match rest with
  | "" => true
  | String c _ =>
      negb (Json.is_digit c || Ascii.eqb c "." || Ascii.eqb c "e" || Ascii.eqb c "E")
  end.

Definition all_ws (s : string) : Prop := JsString.forallb Json.is_ws s = true.

(** The separators between the parts of a container and around them. *)
Definition lead (gap indent : string) : string :=
  if JsString.isEmpty gap then "" else String Json.newline (indent +:+ gap).

Definition trail (gap indent : string) : string :=
  if JsString.isEmpty gap then "" else String Json.newline indent.

Fixpoint tail_parts (sep : string) (parts : list string) : string :=
  match parts with
  | [] => ""
  | y :: parts' => sep +:+ y +:+ tail_parts sep parts'
  end.

(** A character that can start a value. *)
Definition head_ok (c : ascii) : Prop :=
  Json.is_ws c = false /\ Ascii.eqb c "]" = false /\ Ascii.eqb c "}" = false.

(** The parser reads the text of [v] back, whatever surrounds it. *)
Definition value_ok (gap : string) (v : json) : Prop :=
  forall indent ws rest fuel,
    all_ws indent -> all_ws ws -> number_stops rest = true ->
    String.length (ws +:+ Json.serialize gap indent v +:+ rest) < fuel ->
    Json.parse_value fuel (ws +:+ Json.serialize gap indent v +:+ rest) = Some (v, rest).

Definition member_text (gap indent : string) (kv : string * json) : string :=
  Json.quote (fst kv) +:+ Json.colon gap +:+ Json.serialize gap indent (snd kv).

End Layout.

(** ** Encoding *)

Module Codec.

Import JsonSidecar.

(** The test of the replacer: [val.length > threshold]. *)
Definition externalized (t : Z) (s : string) : bool :=
  (t <? Z.of_nat (String.length s))%Z.

(** What the replacer leaves in the place of a leaf. *)
Definition encode_leaf (t : Z) (s : string) : string :=
  if externalized t s then ref (processLargeString s) else s.

(** The file name under which the replacer records a leaf. *)
Definition sidecar_file (s : string) : string :=
  match extractSidecarHash (ref (processLargeString s)) with
  | Some hash => hash +:+ ".sidecar"
  | None => ".sidecar"
  end.

(** The entries that the replacer records, leaf by leaf. *)
Definition recorded (t : Z) (v : json) : list (string * string) :=
  flat_map (fun s => if externalized t s
                     then [(sidecar_file s, content (processLargeString s))]
                     else [])
           (leaves v).

(** The entries of a list set in a [Map], one after the other. *)
Definition record_all (entries : list (string * string)) (m : Sidecars) : Sidecars :=
  fold_left (fun m e => Json.define_prop (fst e) (snd e) m) entries m.

(** A sequence of writes into a directory. *)
Definition write_all (dir : path) (entries : list (string * string))
    (fs : gmap path string) : gmap path string :=
  fold_left (fun fs e => <[join dir (fst e) := snd e]> fs) entries fs.

(** The world after [if (!existsSync(dir)) mkdirSync(dir, { recursive: true })]. *)
Definition ensure_dir (dir : path) (w : world) : world :=
  if bool_decide (is_Some (files w !! dir)) || bool_decide (dir ∈ dirs w) then w
  else with_dirs (list_to_set (ancestors dir) ∪ dirs w) w.







End Codec.

(** ** Decoding *)

Module Decode.

Import JsonSidecar.

(** The file that a string refers to, if it is a reference. *)
Definition sidecar_path (dir : path) (s : string) : option path :=
  match extractSidecarHash s with
  | Some hash => if JsString.isEmpty hash then None else Some (join dir (hash +:+ ".sidecar"))
  | None => None
  end.

Definition present (w : world) (p : path) : bool :=
  bool_decide (is_Some (files w !! p)) || bool_decide (p ∈ dirs w).


(** No reference names a directory. *)
Definition readable (w : world) (dir : path) (s : string) : bool :=
  match sidecar_path dir s with
  | Some p => bool_decide (is_Some (files w !! p)) || negb (bool_decide (p ∈ dirs w))
  | None => true
  end.

(** What the reviver makes of a leaf, and what it prints. *)
Definition decode_leaf (w : world) (dir : path) (s : string) : string :=
  match sidecar_path dir s with
  | Some p =>
      match files w !! p with
      | Some text =>
          match JsString.indexOf SIDECAR_MARKER s with
          | Some (S i) => JsString.slice_to (S i) s +:+ text
          | _ => text
          end
      | None => s
      end
  | None => s
  end.

Definition warnings (w : world) (dir : path) (s : string) : list console_line :=
  match sidecar_path dir s with
  | Some p => if present w p then [] else [Warn ("Sidecar file not found: " +:+ show_path p)]
  | None => []
  end.

End Decode.

(** ** The cache *)

Module Cache.

Import RequestCache.

(** What the lookup returns, read off the two files. *)
Definition stored_entry (E : Env) (url : string) (body : json) (w : world)
    : option (json * json) :=
  let paths := getCachePaths E (getCacheKey url body) in
  match files w !! meta paths, files w !! response paths with
  | Some metaText, Some responseText =>
      match Json.parse metaText, Json.parse responseText with
      | Some cachedMeta, Some cachedResponse => Some (cachedMeta, cachedResponse)
      | _, _ => None
      end
  | _, _ => None
  end.




(** The files after [cacheResponse]: the metadata, the sidecars of the
    request, the request, the sidecars of the response, the response. *)
Definition stored_files (E : Env) (url : string) (requestBody : json)
    (captured : CachedResponse) (stack : StackInfo) (fs : gmap path string)
    : gmap path string :=
  let key := getCacheKey url requestBody in
  let paths := getCachePaths E key in
  let t := JsonSidecar.DEFAULT_THRESHOLD in
  <[response paths :=
      Json.stringify_indent2 (map_strings (Codec.encode_leaf t) (response_object captured))]>
    (Codec.write_all (SIDECAR_DIR E) (Codec.recorded t (response_object captured))
       (<[request paths :=
            Json.stringify_indent2 (map_strings (Codec.encode_leaf t) requestBody)]>
          (Codec.write_all (SIDECAR_DIR E) (Codec.recorded t requestBody)
             (<[meta paths :=
                  Json.stringify_indent2
                    (meta_object E key url requestBody captured stack)]> fs)))).

(** The keys of an object that [normalized[key] = value] copies as they are. *)
Definition plain_keys (props : list (string * json)) : bool :=
  distinct_keys (List.map fst props)
  && forallb (fun kv => negb (String.eqb (fst kv) "__proto__")) props.

(** The key computed over the serialised body itself. *)
Definition key_of_text (url : string) (body : json) : string :=
  JsString.slice_to 16
    (hash_digest_hex (hash_update (hash_update createHash_sha256 url) (Json.stringify body))).

(** What a caller and the transport see of one call of the wrapper: the
    outcome, the number of calls of the transport so far, the console. *)
Definition observe (run : outcome Response * world)
    : outcome Response * nat * list console_line :=
  (fst run, length (requests (snd run)), console (snd run)).

(** The same call of the wrapper, twice in a row. *)
Definition twice (E : Env) (input : RequestInfo) (init : option RequestInit) (w : world) :=
  let first := createCachedFetch E (mkCacheOptions None None) input init w in
  let second := createCachedFetch E (mkCacheOptions None None) input init (snd first) in
  (observe first, observe second).

End Cache.

(** ** Sample inputs *)

Module Samples.

Import JsonSidecar RequestCache.

Definition empty_world : world := World ∅ ∅ [] 0 [].

Definition letters (c : string) (n : nat) : string := String.concat "" (repeat c n).







(** A transport that answers every call with one response, after
    [latency] milliseconds. *)
Definition answering (r : Response) (latency : Z) : Env :=
  mkEnv ["work"] (fun _ => "1970-01-01T00:00:00.000Z")
        (mkStackInfo ["src/example.ts:10:3"] (Some "src/example.ts:10:3"))
        (fun _ _ t => (Returned r, (t + latency)%Z)).

Definition post (requestBody : json) : option RequestInit :=
  Some (mkInit (Some "POST") (Some (Json.stringify requestBody)) []).

Definition big_answer : Response :=
  mkResponse 200 "OK" [("content-type", "application/json")]
             (Json.stringify (JObj [("data", JStr (letters "A" 1001))])).

End Samples.

(** * Properties *)

(** ** Strings *)

Module StringFacts.

Lemma sapp_cons a s t : String a s +:+ t = String a (s +:+ t).
Proof. reflexivity. Qed.

Lemma sapp_nil_l s : "" +:+ s = s.
Proof. reflexivity. Qed.

Lemma sapp_nil_r s : s +:+ "" = s.
Proof. induction s as [|a s IH]; [reflexivity|]. rewrite sapp_cons. by f_equal. Qed.

Lemma sapp_assoc a b c : (a +:+ b) +:+ c = a +:+ (b +:+ c).
Proof. induction a as [|x a IH]; [reflexivity|]. rewrite !sapp_cons. by f_equal. Qed.

Lemma slength_app a b : String.length (a +:+ b) = String.length a + String.length b.
Proof. induction a as [|x a IH]; [reflexivity|]. rewrite sapp_cons. simpl. by f_equal. Qed.

Lemma eqb_refl a : Ascii.eqb a a = true.
Proof. apply Ascii.eqb_refl. Qed.

Lemma startsWith_app p s : JsString.startsWith p (p +:+ s) = true.
Proof.
  induction p as [|a p IH]; [reflexivity|].
  rewrite sapp_cons. simpl. by rewrite eqb_refl.
Qed.

Lemma startsWith_spec p s :
  JsString.startsWith p s = true <-> exists t, s = p +:+ t.
Proof.
  revert s. induction p as [|a p IH]; intros s.
  - split; [intros _; by exists s | done].
  - destruct s as [|b s]; simpl.
    + split; [done | intros [t Ht]; discriminate].
    + destruct (Ascii.eqb_spec a b) as [->|Hne].
      * rewrite IH. split; intros [t Ht]; exists t.
        -- rewrite sapp_cons. by f_equal.
        -- rewrite sapp_cons in Ht. by injection Ht.
      * split; [done | intros [t Ht]]. rewrite sapp_cons in Ht. congruence.
Qed.


Lemma stripPrefix_spec p s t : JsString.stripPrefix p s = Some t <-> s = p +:+ t.
Proof.
  revert s. induction p as [|a p IH]; intros s.
  - simpl. rewrite sapp_nil_l. split; congruence.
  - destruct s as [|b s]; simpl.
    + split; [done | rewrite sapp_cons; discriminate].
    + destruct (Ascii.eqb_spec a b) as [->|Hne].
      * rewrite IH, sapp_cons. split; congruence.
      * rewrite sapp_cons. split; [done | congruence].
Qed.



Lemma length_slice_to n s : n <= String.length s -> String.length (JsString.slice_to n s) = n.
Proof.
  revert s. induction n as [|n IH]; intros [|a s] Hn; simpl in *; try lia; try done.
  f_equal. apply IH. lia.
Qed.

Lemma sforallb_app p a b :
  JsString.forallb p (a +:+ b) = JsString.forallb p a && JsString.forallb p b.
Proof.
  induction a as [|x a IH]; [reflexivity|].
  rewrite sapp_cons. simpl. rewrite IH. by rewrite andb_assoc.
Qed.

End StringFacts.

(** ** JSON text *)

Module JsonFacts.

Import StringFacts Layout.

Lemma json_induction (P : json -> Prop) :
  P JNull -> (forall b, P (JBool b)) -> (forall n, P (JNum n)) ->
  (forall s, P (JStr s)) ->
  (forall items, Forall P items -> P (JArr items)) ->
  (forall props, Forall (fun kv => P (snd kv)) props -> P (JObj props)) ->
  forall v, P v.
Proof.
  intros Hnull Hbool Hnum Hstr Harr Hobj.
  fix IH 1. intros [| b | n | s | items | props].
  - apply Hnull.
  - apply Hbool.
  - apply Hnum.
  - apply Hstr.
  - apply Harr.
    refine ((fix all (l : list json) : Forall P l :=
               match l with
               | [] => List.Forall_nil P
               | x :: l' => @List.Forall_cons _ P x l' (IH x) (all l')
               end) items).
  - apply Hobj.
    refine ((fix all (l : list (string * json)) : Forall (fun kv => P (snd kv)) l :=
               match l with
               | [] => List.Forall_nil _
               | kv :: l' => @List.Forall_cons _ _ kv l' (IH (snd kv)) (all l')
               end) props).
Qed.

(** *** String literals *)

Lemma parse_chars_escape_unit c r :
  Json.parse_chars (Json.escape_unit c +:+ r) =
  match Json.parse_chars r with
  | Some (str, rest) => Some (String c str, rest)
  | None => None
  end.
Proof.
  destruct c as [b0 b1 b2 b3 b4 b5 b6 b7].
  destruct b0, b1, b2, b3, b4, b5, b6, b7; reflexivity.
Qed.

Lemma parse_chars_escape s rest :
  Json.parse_chars (Json.escape s +:+ String Json.dquote rest) = Some (s, rest).
Proof.
  induction s as [|c s IH]; [reflexivity|].
  simpl Json.escape. rewrite sapp_assoc, parse_chars_escape_unit, IH. reflexivity.
Qed.

Lemma parse_chars_quote s rest :
  exists body, Json.quote s +:+ rest = String Json.dquote body /\
               Json.parse_chars body = Some (s, rest).
Proof.
  exists (Json.escape s +:+ String Json.dquote rest). split.
  - unfold Json.quote. rewrite sapp_cons, sapp_assoc. reflexivity.
  - apply parse_chars_escape.
Qed.

(** *** Numbers *)

Lemma span_digits d rest :
  number_stops rest = true ->
  JsString.span Json.is_digit (NilEmpty.string_of_uint d +:+ rest)
  = (NilEmpty.string_of_uint d, rest).
Proof.
  intros Hstop.
  induction d as [|d IH|d IH|d IH|d IH|d IH|d IH|d IH|d IH|d IH|d IH];
    try (simpl NilEmpty.string_of_uint; rewrite sapp_cons; simpl; rewrite IH; reflexivity).
  rewrite sapp_nil_l. destruct rest as [|c rest]; [reflexivity|].
  simpl in *. destruct (Json.is_digit c); [discriminate | reflexivity].
Qed.

Lemma to_uint_normal p : Decimal.unorm (Pos.to_uint p) = Pos.to_uint p.
Proof.
  rewrite <- (DecimalPos.Unsigned.to_of (Pos.to_uint p)).
  rewrite DecimalPos.Unsigned.of_to. reflexivity.
Qed.

Lemma to_uint_head p d : Pos.to_uint p <> Decimal.D0 d.
Proof.
  intros Hd. pose proof (to_uint_normal p) as Hn. rewrite Hd in Hn.
  rewrite DecimalFacts.unorm_D0 in Hn.
  assert (Hcase : d = Decimal.Nil \/ d <> Decimal.Nil)
    by (destruct d; [left | right ..]; congruence).
  destruct Hcase as [-> | Hnil].
  - exact (DecimalPos.Unsigned.to_uint_nonzero p Hd).
  - pose proof (DecimalFacts.nb_digits_unorm _ Hnil) as Hle.
    rewrite Hn in Hle. simpl in Hle. lia.
Qed.

Lemma parse_digits_positive p rest :
  number_stops rest = true ->
  Json.parse_digits (NilEmpty.string_of_uint (Pos.to_uint p) +:+ rest)
  = Some (Npos p, rest).
Proof.
  intros Hstop. unfold Json.parse_digits.
  rewrite (span_digits _ _ Hstop).
  assert (Hcont : match rest with
                  | String c _ => Ascii.eqb c "." || Ascii.eqb c "e" || Ascii.eqb c "E"
                  | "" => false
                  end = false).
  { destruct rest as [|c rest]; [reflexivity|]. simpl in Hstop.
    destruct (Json.is_digit c); [discriminate|]. simpl in Hstop.
    by apply negb_true_iff in Hstop. }
  rewrite Hcont.
  pose proof (to_uint_head p) as Hhead.
  pose proof (DecimalPos.Unsigned.to_uint_nonnil p) as Hnonnil.
  rewrite NilEmpty.usu. unfold N.of_uint.
  rewrite DecimalPos.Unsigned.of_to.
  destruct (Pos.to_uint p) as [|d|d|d|d|d|d|d|d|d|d]; try congruence;
    try (exfalso; exact (Hhead d eq_refl));
    destruct d; reflexivity.
Qed.

Lemma parse_number_text n rest :
  number_stops rest = true ->
  Json.parse_number (Json.number_text n +:+ rest) = Some (JNum n, rest).
Proof.
  intros Hstop. destruct n as [|p|p].
  - change (Json.number_text 0) with (NilEmpty.string_of_uint (Decimal.D0 Decimal.Nil)).
    assert (Hd : Json.parse_digits
                   (NilEmpty.string_of_uint (Decimal.D0 Decimal.Nil) +:+ rest)
                 = Some (0%N, rest)).
    { unfold Json.parse_digits. rewrite (span_digits _ _ Hstop).
      destruct rest as [|c rest]; [reflexivity|]. simpl in Hstop.
      destruct (Json.is_digit c); [discriminate|]. simpl in Hstop.
      apply negb_true_iff in Hstop. simpl. rewrite Hstop. reflexivity. }
    unfold Json.parse_number. simpl NilEmpty.string_of_uint in *.
    rewrite sapp_cons in *. rewrite Hd. reflexivity.
  - pose proof (parse_digits_positive p rest Hstop) as Hp.
    pose proof (to_uint_head p) as Hhead.
    pose proof (DecimalPos.Unsigned.to_uint_nonnil p) as Hnonnil.
    simpl Json.number_text. unfold Json.parse_number.
    destruct (Pos.to_uint p) as [|d|d|d|d|d|d|d|d|d|d]; try congruence;
      try (exfalso; exact (Hhead d eq_refl));
      simpl NilEmpty.string_of_uint in *; rewrite sapp_cons in *;
      rewrite Hp; reflexivity.
  - simpl Json.number_text. rewrite sapp_cons. unfold Json.parse_number.
    rewrite (parse_digits_positive p rest Hstop). reflexivity.
Qed.

(** The first character of a number is a sign or a digit. *)
Lemma number_text_head n :
  exists c r, Json.number_text n = String c r /\
              (c = "-"%char \/ Json.is_digit c = true).
Proof.
  destruct n as [|p|p]; simpl.
  - eexists _, _. split; [reflexivity | by right].
  - pose proof (DecimalPos.Unsigned.to_uint_nonnil p) as Hnonnil.
    destruct (Pos.to_uint p); try congruence;
      eexists _, _; (split; [reflexivity | by right]).
  - eexists _, _. split; [reflexivity | by left].
Qed.

(** *** Layout *)

Lemma all_ws_app a b : all_ws a -> all_ws b -> all_ws (a +:+ b).
Proof. unfold all_ws. intros Ha Hb. by rewrite sforallb_app, Ha, Hb. Qed.

Lemma all_ws_newline s : all_ws s -> all_ws (String Json.newline s).
Proof. unfold all_ws. simpl. auto. Qed.

Lemma skip_ws_app ws s : all_ws ws -> Json.skip_ws (ws +:+ s) = Json.skip_ws s.
Proof.
  unfold all_ws. induction ws as [|c ws IH]; [reflexivity|].
  simpl JsString.forallb. intros [Hc Hws]%andb_true_iff. rewrite sapp_cons. simpl.
  rewrite Hc. auto.
Qed.

Lemma skip_ws_head c r : Json.is_ws c = false -> Json.skip_ws (String c r) = String c r.
Proof. intros Hc. simpl. by rewrite Hc. Qed.

Lemma ws_stops c r : Json.is_ws c = true -> number_stops (String c r) = true.
Proof.
  destruct c as [b0 b1 b2 b3 b4 b5 b6 b7].
  destruct b0, b1, b2, b3, b4, b5, b6, b7; (discriminate || reflexivity).
Qed.

Lemma all_ws_stops t c r :
  all_ws t -> number_stops (String c r) = true -> number_stops (t +:+ String c r) = true.
Proof.
  destruct t as [|a t]; [done|]. unfold all_ws. simpl JsString.forallb.
  intros [Ha _]%andb_true_iff _. rewrite ?sapp_cons. by apply ws_stops.
Qed.

Lemma join_cons sep x xs : JsString.join sep (x :: xs) = x +:+ tail_parts sep xs.
Proof.
  revert x. induction xs as [|y xs IH]; intros x.
  - simpl. by rewrite sapp_nil_r.
  - change (JsString.join sep (x :: y :: xs)) with (x +:+ sep +:+ JsString.join sep (y :: xs)).
    rewrite IH. reflexivity.
Qed.

Lemma bracket_cons gap indent opening closing p ps :
  Json.bracket gap indent opening closing (p :: ps)
  = opening +:+ lead gap indent +:+ p
      +:+ tail_parts (String "," (lead gap indent)) ps
      +:+ trail gap indent +:+ closing.
Proof.
  unfold Json.bracket, lead, trail. destruct (JsString.isEmpty gap).
  - rewrite join_cons, !sapp_nil_l, !sapp_assoc. reflexivity.
  - rewrite join_cons, !sapp_assoc. reflexivity.
Qed.

Lemma all_ws_lead gap indent : all_ws gap -> all_ws indent -> all_ws (lead gap indent).
Proof.
  intros Hg Hi. unfold lead. destruct (JsString.isEmpty gap); [done|].
  by apply all_ws_newline, all_ws_app.
Qed.

Lemma all_ws_trail gap indent : all_ws indent -> all_ws (trail gap indent).
Proof.
  intros Hi. unfold trail. destruct (JsString.isEmpty gap); [done|].
  by apply all_ws_newline.
Qed.

Lemma all_ws_colon gap : exists sp, Json.colon gap = String ":" sp /\ all_ws sp.
Proof. unfold Json.colon. destruct (JsString.isEmpty gap); eexists; split; done. Qed.

(** What follows a part of a container stops a number. *)
Lemma tail_stops sep_ws ps t c r :
  all_ws t -> number_stops (String c r) = true ->
  number_stops (tail_parts (String "," sep_ws) ps +:+ t +:+ String c r) = true.
Proof.
  intros Ht Hc. destruct ps as [|p ps]; [by apply all_ws_stops|]. reflexivity.
Qed.

(** *** Values *)

Lemma digit_head_ok c : c = "-"%char \/ Json.is_digit c = true -> head_ok c.
Proof.
  unfold head_ok. destruct c as [b0 b1 b2 b3 b4 b5 b6 b7].
  destruct b0, b1, b2, b3, b4, b5, b6, b7;
    (intros [H|H]; first [discriminate | done]).
Qed.

Lemma parse_value_number fuel c r :
  c = "-"%char \/ Json.is_digit c = true ->
  Json.parse_value (S fuel) (String c r) = Json.parse_number (String c r).
Proof.
  destruct c as [b0 b1 b2 b3 b4 b5 b6 b7].
  destruct b0, b1, b2, b3, b4, b5, b6, b7;
    (intros [H|H]; first [discriminate | reflexivity]).
Qed.

Lemma serialize_head gap indent v :
  exists c r, Json.serialize gap indent v = String c r /\ head_ok c.
Proof.
  destruct v as [| [|] | n | s | items | props]; simpl.
  - eexists _, _. by split.
  - eexists _, _. by split.
  - eexists _, _. by split.
  - destruct (number_text_head n) as (c & r & -> & Hc).
    exists c, r. split; [done | by apply digit_head_ok].
  - eexists _, _. by split.
  - destruct items as [|x items].
    + eexists _, _. by split.
    + simpl List.map. rewrite bracket_cons. eexists _, _. by split.
  - destruct props as [|kv props].
    + eexists _, _. by split.
    + simpl List.map. rewrite bracket_cons. eexists _, _. by split.
Qed.

Lemma define_prop_fresh {A} k (v : A) o :
  existsb (String.eqb k) (List.map fst o) = false ->
  Json.define_prop k v o = (o ++ [(k, v)])%list.
Proof.
  induction o as [|[k' v'] o IH]; [reflexivity|].
  simpl. intros [Hk Ho]%orb_false_iff.
  rewrite String.eqb_sym, Hk. f_equal. auto.
Qed.

Lemma parse_items_tail gap indent items :
  Forall (value_ok gap) items ->
  forall acc sep_ws t rest fuel,
    all_ws indent -> all_ws sep_ws -> all_ws t ->
    String.length (tail_parts (String "," sep_ws)
                     (List.map (Json.serialize gap indent) items)
                   +:+ t +:+ String "]" rest) < fuel ->
    Json.parse_items fuel acc
      (tail_parts (String "," sep_ws) (List.map (Json.serialize gap indent) items)
       +:+ t +:+ String "]" rest)
    = Some (JArr (acc ++ items), rest).
Proof.
  induction 1 as [|x items Hx _ IH]; intros acc sep_ws t rest fuel Hi Hs Ht Hlen.
  - simpl tail_parts in *. rewrite sapp_nil_l in *.
    destruct fuel as [|fuel]; [lia|].
    simpl Json.parse_items. rewrite (skip_ws_app _ _ Ht), skip_ws_head by done.
    simpl. by rewrite List.app_nil_r.
  - simpl List.map in *. simpl tail_parts in *.
    rewrite !sapp_assoc in *. rewrite !sapp_cons in *.
    destruct fuel as [|fuel]; [lia|].
    simpl Json.parse_items. rewrite ?skip_ws_head by done.
    simpl in Hlen.
    change (("," =? "]")%char) with false. change (("," =? ",")%char) with true.
    cbv iota.
    rewrite (Hx indent sep_ws _ fuel Hi Hs); [| by apply tail_stops | lia].
    rewrite IH; [by rewrite <- List.app_assoc | done..|].
    rewrite !slength_app in *. lia.
Qed.

Lemma parse_member_step gap indent k x acc sep_ws rest fuel :
  value_ok gap x -> all_ws indent -> all_ws sep_ws ->
  number_stops rest = true ->
  String.length (sep_ws +:+ member_text gap indent (k, x) +:+ rest) < S fuel ->
  Json.parse_member (S fuel) acc (sep_ws +:+ member_text gap indent (k, x) +:+ rest)
  = match Json.skip_ws rest with
    | "" => None
    | String c r =>
        if Ascii.eqb c "}" then Some (JObj (Json.define_prop k x acc), r)
        else if Ascii.eqb c "," then Json.parse_member fuel (Json.define_prop k x acc) r
        else None
    end.
Proof.
  intros Hx Hi Hs Hstop Hlen. unfold member_text in *. simpl fst in *. simpl snd in *.
  destruct (all_ws_colon gap) as (sp & Hcolon & Hsp). rewrite Hcolon in *.
  rewrite !sapp_assoc in *.
  destruct (parse_chars_quote k
              (String ":" sp +:+ Json.serialize gap indent x +:+ rest))
    as (body & Hbody & Hparse).
  rewrite Hbody in *.
  rewrite !slength_app in Hlen. simpl in Hlen.
  apply (f_equal String.length) in Hbody.
  rewrite !slength_app in Hbody. simpl in Hbody. rewrite !slength_app in Hbody.
  assert (Hfuel : String.length (sp +:+ Json.serialize gap indent x +:+ rest) < fuel)
    by (rewrite !slength_app; lia).
  clear Hbody Hlen.
  simpl Json.parse_member. rewrite (skip_ws_app _ _ Hs). simpl Json.skip_ws.
  change ((Json.dquote =? Json.dquote)%char) with true. cbv iota.
  rewrite Hparse. rewrite !sapp_cons. simpl Json.skip_ws.
  change ((":" =? ":")%char) with true. cbv iota.
  rewrite (Hx indent sp rest fuel Hi Hsp Hstop Hfuel). reflexivity.
Qed.

Lemma fresh_key (acc : list (string * json)) k x props :
  distinct_keys (List.map fst (acc ++ (k, x) :: props)) = true ->
  existsb (String.eqb k) (List.map fst acc) = false.
Proof.
  induction acc as [|[k0 x0] acc IH]; [reflexivity|].
  simpl. intros [Hk0 Hrest]%andb_true_iff.
  apply orb_false_iff. split; [|by apply IH].
  apply negb_true_iff in Hk0.
  rewrite List.map_app, existsb_app in Hk0.
  apply orb_false_iff in Hk0 as [_ Hk0]. simpl in Hk0.
  apply orb_false_iff in Hk0 as [Hk0 _]. by rewrite String.eqb_sym.
Qed.

Lemma parse_member_tail gap indent props :
  Forall (fun kv => value_ok gap (snd kv)) props ->
  forall acc kv sep_ws t rest fuel,
    value_ok gap (snd kv) ->
    distinct_keys (List.map fst (acc ++ kv :: props)) = true ->
    all_ws indent -> all_ws sep_ws -> all_ws t ->
    String.length (sep_ws +:+ member_text gap indent kv
                   +:+ tail_parts (String "," sep_ws)
                         (List.map (member_text gap indent) props)
                   +:+ t +:+ String "}" rest) < fuel ->
    Json.parse_member fuel acc
      (sep_ws +:+ member_text gap indent kv
       +:+ tail_parts (String "," sep_ws) (List.map (member_text gap indent) props)
       +:+ t +:+ String "}" rest)
    = Some (JObj (acc ++ kv :: props), rest).
Proof.
  induction 1 as [|kv' props Hkv' _ IH];
    intros acc [k x] sep_ws t rest fuel Hx Hdistinct Hi Hs Ht Hlen;
    (destruct fuel as [|fuel]; [lia|]);
    pose proof (define_prop_fresh k x acc (fresh_key _ _ _ _ Hdistinct)) as Hfresh;
    rewrite parse_member_step; try done; try (by apply tail_stops).
  - simpl tail_parts. rewrite sapp_nil_l.
    rewrite (skip_ws_app _ _ Ht). simpl. by rewrite Hfresh.
  - simpl List.map. simpl tail_parts. rewrite !sapp_assoc. rewrite !sapp_cons.
    simpl. rewrite Hfresh.
    rewrite <- !sapp_assoc. rewrite !sapp_assoc.
    rewrite (IH (acc ++ [(k, x)])%list kv' sep_ws t rest fuel); try done.
    + by rewrite <- List.app_assoc.
    + by rewrite <- List.app_assoc.
    + simpl List.map in Hlen. simpl tail_parts in Hlen.
      rewrite !slength_app in *. simpl in *. rewrite !slength_app in *. lia.
Qed.

Lemma parse_value_ws fuel ws s :
  all_ws ws -> Json.parse_value fuel (ws +:+ s) = Json.parse_value fuel s.
Proof.
  intros Hws. destruct fuel as [|fuel]; [reflexivity|].
  simpl. by rewrite (skip_ws_app _ _ Hws).
Qed.

Lemma parse_value_array fuel r :
  Json.parse_value (S fuel) (String "[" r)
  = match Json.skip_ws r with
    | "" => None
    | String c rest =>
        if Ascii.eqb c "]" then Some (JArr [], rest)
        else match Json.parse_value fuel r with
             | Some (x, rest') => Json.parse_items fuel [x] rest'
             | None => None
             end
    end.
Proof. reflexivity. Qed.

Lemma parse_value_object fuel r :
  Json.parse_value (S fuel) (String "{" r)
  = match Json.skip_ws r with
    | "" => None
    | String c rest =>
        if Ascii.eqb c "}" then Some (JObj [], rest)
        else Json.parse_member fuel [] r
    end.
Proof. reflexivity. Qed.

Lemma parse_value_string fuel r :
  Json.parse_value (S fuel) (String Json.dquote r)
  = match Json.parse_chars r with
    | Some (str, rest) => Some (JStr str, rest)
    | None => None
    end.
Proof. reflexivity. Qed.

Lemma serialize_array gap indent x items :
  Json.serialize gap indent (JArr (x :: items))
  = "[" +:+ lead gap indent +:+ Json.serialize gap (indent +:+ gap) x
      +:+ tail_parts (String "," (lead gap indent))
            (List.map (Json.serialize gap (indent +:+ gap)) items)
      +:+ trail gap indent +:+ "]".
Proof. apply bracket_cons. Qed.

Lemma serialize_object gap indent kv props :
  Json.serialize gap indent (JObj (kv :: props))
  = "{" +:+ lead gap indent +:+ member_text gap (indent +:+ gap) kv
      +:+ tail_parts (String "," (lead gap indent))
            (List.map (member_text gap (indent +:+ gap)) props)
      +:+ trail gap indent +:+ "}".
Proof. apply bracket_cons. Qed.

Lemma parse_value_serialize gap :
  all_ws gap -> forall v, representable v = true -> value_ok gap v.
Proof.
  intros Hgap v. induction v as [| b | n | s | items IH | props IH] using json_induction;
    intros Hrep indent ws rest fuel Hi Hws Hstop Hlen;
    (destruct fuel as [|fuel]; [lia|]);
    rewrite (parse_value_ws _ _ _ Hws);
    rewrite slength_app in Hlen;
    match type of Hlen with
    | _ + String.length ?t < _ => assert (Hfuel : String.length t < S fuel) by lia
    end;
    clear Hlen Hws ws.
  - reflexivity.
  - by destruct b.
  - simpl Json.serialize in *.
    destruct (number_text_head n) as (c & r & Hn & Hc).
    pose proof (parse_number_text n rest Hstop) as Hparse.
    rewrite Hn in *. rewrite sapp_cons in *. by rewrite parse_value_number.
  - simpl Json.serialize in *.
    destruct (parse_chars_quote s rest) as (body & Hbody & Hparse).
    rewrite Hbody, parse_value_string. by rewrite Hparse.
  - simpl in Hrep.
    assert (Hall : Forall (value_ok gap) items).
    { clear -IH Hrep. induction IH as [|x items Hx _ IHitems]; [constructor|].
      simpl in Hrep. apply andb_true_iff in Hrep as [Hx' Hitems].
      constructor; auto. }
    clear IH Hrep. destruct Hall as [|x items Hx Hitems]; [reflexivity|].
    rewrite serialize_array in *.
    assert (Hinner : all_ws (indent +:+ gap)) by (by apply all_ws_app).
    pose proof (all_ws_lead gap indent Hgap Hi) as Hlead.
    pose proof (all_ws_trail gap indent Hi) as Htrail.
    destruct (serialize_head gap (indent +:+ gap) x) as (c & r & Hser & Hc & Hc' & _).
    rewrite ?sapp_assoc in *. rewrite sapp_cons, sapp_nil_l in *.
    simpl in Hfuel. rewrite !slength_app in Hfuel. simpl in Hfuel.
    rewrite parse_value_array.
    rewrite (skip_ws_app _ _ Hlead). rewrite Hser at 1. rewrite sapp_cons.
    rewrite (skip_ws_head _ _ Hc). rewrite Hc'.
    rewrite (Hx (indent +:+ gap) (lead gap indent) _ fuel Hinner Hlead);
      [| by apply tail_stops | rewrite !slength_app; simpl; lia].
    change ("]" +:+ rest) with (String "]" rest) in *.
    rewrite (parse_items_tail gap (indent +:+ gap) items Hitems [x]
               (lead gap indent) (trail gap indent) rest fuel); try done.
    rewrite !slength_app. simpl. lia.
  - simpl in Hrep. apply andb_true_iff in Hrep as [Hkeys Hrep].
    assert (Hall : Forall (fun kv => value_ok gap (snd kv)) props).
    { clear -IH Hrep. induction IH as [|x props Hx _ IHprops]; [constructor|].
      simpl in Hrep. apply andb_true_iff in Hrep as [Hx' Hprops].
      constructor; auto. }
    clear IH Hrep. destruct Hall as [|[k x] props Hx Hprops]; [reflexivity|].
    rewrite serialize_object in *.
    assert (Hinner : all_ws (indent +:+ gap)) by (by apply all_ws_app).
    pose proof (all_ws_lead gap indent Hgap Hi) as Hlead.
    pose proof (all_ws_trail gap indent Hi) as Htrail.
    rewrite ?sapp_assoc in *. rewrite sapp_cons, sapp_nil_l in *.
    simpl in Hfuel. rewrite !slength_app in Hfuel. simpl in Hfuel.
    rewrite parse_value_object.
    change ("}" +:+ rest) with (String "}" rest) in *.
    rewrite (skip_ws_app _ _ Hlead).
    assert (Hhead : exists r, member_text gap (indent +:+ gap) (k, x) +:+
                              tail_parts (String "," (lead gap indent))
                                (List.map (member_text gap (indent +:+ gap)) props) +:+
                              trail gap indent +:+ String "}" rest
                              = String Json.dquote r).
    { unfold member_text, Json.quote. simpl fst. rewrite !sapp_cons. eauto. }
    destruct Hhead as (r & Hr). rewrite Hr. simpl Json.skip_ws.
    change ((Json.dquote =? "}")%char) with false. cbv iota. rewrite <- Hr.
    rewrite (parse_member_tail gap (indent +:+ gap) props Hprops [] (k, x)
               (lead gap indent) (trail gap indent) rest fuel); try done.
    rewrite !slength_app. simpl. lia.
Qed.

Theorem parse_serialize gap v :
  all_ws gap -> representable v = true ->
  Json.parse (Json.serialize gap "" v) = Some v.
Proof.
  intros Hgap Hrep. unfold Json.parse.
  pose proof (parse_value_serialize gap Hgap v Hrep "" "" ""
                (S (String.length (Json.serialize gap "" v)))) as Hv.
  rewrite sapp_nil_l, sapp_nil_r in Hv. rewrite Hv; [reflexivity | done.. | lia].
Qed.

Corollary parse_stringify v :
  representable v = true -> Json.parse (Json.stringify v) = Some v.
Proof. by apply parse_serialize. Qed.


End JsonFacts.

(** ** Encoding *)

Module CodecFacts.

Import StringFacts Layout JsonFacts JsonSidecar Codec.

(** *** Strings: positions *)

Lemma length_slice_from n s :
  String.length (JsString.slice_from n s) = String.length s - n.
Proof.
  revert s. induction n as [|n IH]; intros s; simpl.
  - lia.
  - destruct s as [|a s]; simpl; auto.
Qed.

Lemma isEmpty_length s : JsString.isEmpty s = false <-> 0 < String.length s.
Proof. destruct s; simpl; split; (done || lia). Qed.

Lemma indexOf_app_marker m p h :
  exists i, JsString.indexOf m (p +:+ m +:+ h) = Some i /\ i <= String.length p.
Proof.
  induction p as [|a p (i & Hi & Hle)].
  - exists 0. rewrite sapp_nil_l. destruct m; simpl.
    + by destruct h.
    + rewrite Ascii.eqb_refl, startsWith_app. split; [done | lia].
  - rewrite sapp_cons. simpl JsString.indexOf.
    destruct (JsString.startsWith m (String a (p +:+ m +:+ h))).
    + exists 0. split; [done | simpl; lia].
    + exists (S i). rewrite Hi. split; [done | simpl; lia].
Qed.




(** *** The hash *)

Lemma hashValue_length value : String.length (hashValue value) = 12.
Proof. reflexivity. Qed.


(** *** The data URL pattern *)

Lemma span_app p s l r : JsString.span p s = (l, r) -> s = l +:+ r.
Proof.
  revert l r. induction s as [|a s IH]; intros l r; simpl.
  - by intros [= <- <-].
  - destruct (p a).
    + destruct (JsString.span p s) as [l' r']. intros [= <- <-].
      rewrite sapp_cons. f_equal. by apply IH.
    + by intros [= <- <-].
Qed.



Lemma DATA_URL_match_elim value prefix data :
  DATA_URL_match value = Some (prefix, data) ->
  value = prefix +:+ data /\ JsString.isEmpty data = false /\
  exists body, prefix = body +:+ ",".
Proof.
  unfold DATA_URL_match.
  destruct (JsString.stripPrefix "data:" value) as [after|] eqn:Hafter; [|done].
  apply stripPrefix_spec in Hafter.
  destruct (JsString.span not_semicolon after) as [mediaType rest] eqn:Hspan.
  apply span_app in Hspan.
  destruct (JsString.stripPrefix ";base64," rest) as [data'|] eqn:Hrest; [|done].
  apply stripPrefix_spec in Hrest.
  destruct (JsString.isEmpty mediaType); [done|].
  destruct (JsString.isEmpty data') eqn:Hd; [done|]. simpl.
  destruct (negb _); [done|]. intros [= <- <-]. subst.
  split; [by rewrite !sapp_assoc | split; [done|]].
  exists ("data:" +:+ mediaType +:+ ";base64"). by rewrite !sapp_assoc.
Qed.

(** *** The reference of a large string *)

(** The reference is a prefix, the marker and a hash; the prefix is empty
    or ends with a comma. *)
Lemma ref_shape value :
  exists prefix,
    ref (processLargeString value)
    = prefix +:+ SIDECAR_MARKER
        +:+ hashValue (content (processLargeString value)) /\
    value = prefix +:+ content (processLargeString value) /\
    (prefix = "" \/ exists body, prefix = body +:+ ",") /\
    (prefix = match DATA_URL_match value with Some (p, _) => p | None => "" end).
Proof.
  unfold processLargeString.
  destruct (DATA_URL_match value) as [[prefix data]|] eqn:Hmatch; simpl.
  - apply DATA_URL_match_elim in Hmatch as (Hv & _ & Hbody).
    exists prefix. split; [done | split; [done | split; [by right | done]]].
  - exists "". split; [done | split; [done | split; [by left | done]]].
Qed.

Lemma extract_ref value :
  exists hash,
    extractSidecarHash (ref (processLargeString value)) = Some hash /\
    JsString.isEmpty hash = false.
Proof.
  destruct (ref_shape value) as (prefix & Href & _).
  unfold extractSidecarHash. rewrite Href.
  destruct (indexOf_app_marker SIDECAR_MARKER prefix
              (hashValue (content (processLargeString value)))) as (i & -> & Hi).
  eexists. split; [reflexivity|].
  apply isEmpty_length. rewrite length_slice_from, !slength_app, hashValue_length.
  simpl. lia.
Qed.

Lemma sidecar_file_spec value :
  exists hash,
    extractSidecarHash (ref (processLargeString value)) = Some hash /\
    JsString.isEmpty hash = false /\
    sidecar_file value = hash +:+ ".sidecar".
Proof.
  destruct (extract_ref value) as (hash & Hh & Hne).
  exists hash. unfold sidecar_file. by rewrite Hh.
Qed.





(** *** The replacer and the traversal of [JSON.stringify] *)

Lemma replacer_string t key s m :
  replacer t key (JStr s) m
  = (Returned (JStr (encode_leaf t s)), record_all (recorded t (JStr s)) m).
Proof.
  unfold replacer, encode_leaf, recorded. simpl leaves. simpl flat_map.
  unfold externalized. destruct (t <? Z.of_nat (String.length s))%Z; [|done].
  destruct (sidecar_file_spec s) as (hash & Hh & Hne & Hfile).
  rewrite Hh, Hne, Hfile. reflexivity.
Qed.

Lemma replacer_other t key v m :
  match v with JStr _ => False | _ => True end ->
  replacer t key v m = (Returned v, m).
Proof. by destruct v. Qed.

Lemma recorded_array t x items :
  recorded t (JArr (x :: items)) = (recorded t x ++ recorded t (JArr items))%list.
Proof. unfold recorded. simpl leaves. by rewrite flat_map_app. Qed.

Lemma recorded_object t kv props :
  recorded t (JObj (kv :: props)) = (recorded t (snd kv) ++ recorded t (JObj props))%list.
Proof. unfold recorded. simpl leaves. by rewrite flat_map_app. Qed.

Lemma record_all_app e1 e2 m : record_all (e1 ++ e2) m = record_all e2 (record_all e1 m).
Proof. apply fold_left_app. Qed.

Theorem replace_walk_spec t v :
  forall key m,
    replace_walk (replacer t) key v m
    = (Returned (map_strings (encode_leaf t) v), record_all (recorded t v) m).
Proof.
  induction v as [| b | n | s | items IH | props IH] using json_induction;
    intros key m; try reflexivity.
  - apply replacer_string.
  - simpl replace_walk. unfold bind.
    assert (Hitems : forall i m,
      traverse_indexed (fun i x => replace_walk (replacer t) (Json.index_text i) x) i items m
      = (Returned (List.map (map_strings (encode_leaf t)) items),
         record_all (recorded t (JArr items)) m)).
    { clear m. induction IH as [|x items Hx _ IHitems]; intros i m; [reflexivity|].
      simpl traverse_indexed. unfold bind. rewrite Hx, IHitems.
      by rewrite recorded_array, record_all_app. }
    by rewrite Hitems.
  - simpl replace_walk. unfold bind.
    assert (Hprops : forall m,
      traverse_props (fun k x => replace_walk (replacer t) k x) props m
      = (Returned (List.map (fun kv => (fst kv, map_strings (encode_leaf t) (snd kv))) props),
         record_all (recorded t (JObj props)) m)).
    { clear m. induction IH as [|kv props Hkv _ IHprops]; intros m; [reflexivity|].
      simpl traverse_props. unfold bind. rewrite Hkv, IHprops.
      by rewrite recorded_object, record_all_app. }
    by rewrite Hprops.
Qed.

(** *** The writes *)

Lemma for_each_writes dir entries w :
  for_each (fun entry => writeFileSync (join dir (fst entry)) (snd entry)) entries w
  = (Returned tt, with_files (write_all dir entries (files w)) w).
Proof.
  revert w. induction entries as [|e entries IH]; intros w.
  - by destruct w.
  - simpl for_each. unfold bind. simpl. rewrite IH. by destruct w.
Qed.

Lemma join_inj dir a b : join dir a = join dir b -> a = b.
Proof. unfold join. intros H. apply app_inv_head in H. congruence. Qed.

Lemma write_all_insert_fresh dir k c entries fs :
  existsb (String.eqb k) (List.map fst entries) = false ->
  write_all dir entries (<[join dir k := c]> fs)
  = <[join dir k := c]> (write_all dir entries fs).
Proof.
  revert fs. induction entries as [|[k' c'] entries IH]; intros fs; [done|].
  simpl. intros [Hk Hrest]%orb_false_iff.
  rewrite <- IH by done. f_equal. apply insert_insert_ne.
  intros Heq%join_inj. subst. by rewrite String.eqb_refl in Hk.
Qed.

Lemma define_prop_keys {A} k (v : A) o :
  distinct_keys (List.map fst o) = true ->
  distinct_keys (List.map fst (Json.define_prop k v o)) = true.
Proof.
  assert (Hin : forall k0 o, existsb (String.eqb k0) (List.map fst (Json.define_prop k v o))
                 = String.eqb k0 k || existsb (String.eqb k0) (List.map fst o)).
  { intros k0. induction o0 as [|[k' v'] o0 IHo]; simpl.
    - by rewrite orb_false_r.
    - destruct (String.eqb_spec k' k) as [->|Hne]; simpl.
      + by destruct (String.eqb k0 k).
      + rewrite IHo. by destruct (String.eqb k0 k'), (String.eqb k0 k). }
  induction o as [|[k' v'] o IH]; [done|].
  simpl. intros [Hk' Ho]%andb_true_iff.
  destruct (String.eqb_spec k' k) as [->|Hne]; simpl.
  - by rewrite Hk', Ho.
  - rewrite Hin, IH by done. apply negb_true_iff in Hk'. rewrite Hk'.
    apply String.eqb_neq in Hne. by rewrite Hne.
Qed.

Lemma write_all_define dir k c m fs :
  distinct_keys (List.map fst m) = true ->
  write_all dir (Json.define_prop k c m) fs = <[join dir k := c]> (write_all dir m fs).
Proof.
  revert fs. induction m as [|[k' c'] m IH]; intros fs; [done|].
  simpl. intros [Hk' Hm]%andb_true_iff. apply negb_true_iff in Hk'.
  destruct (String.eqb_spec k' k) as [->|Hne]; simpl.
  - rewrite !write_all_insert_fresh by done. by rewrite insert_insert_eq.
  - by apply IH.
Qed.

(** Writing the map of the replacer at the end is writing every recorded
    entry in the order of the traversal. *)
Lemma write_all_record dir entries m fs :
  distinct_keys (List.map fst m) = true ->
  write_all dir (record_all entries m) fs = write_all dir entries (write_all dir m fs).
Proof.
  revert m. induction entries as [|[k c] entries IH]; intros m Hm; [done|].
  simpl. rewrite IH by (by apply define_prop_keys).
  by rewrite write_all_define.
Qed.

(** *** [stringify] *)

Theorem stringify_spec value mainFilePath options w :
  let t := resolve_threshold options in
  let dir := resolve_dir mainFilePath options in
  stringify value mainFilePath options w
  = (Returned (Json.stringify_indent2 (map_strings (encode_leaf t) value)),
     with_files (write_all dir (recorded t value) (files (ensure_dir dir w)))
                (ensure_dir dir w)).
Proof.
  intros t dir. unfold stringify, bind, existsSync. fold t dir.
  rewrite replace_walk_spec.
  assert (Hdir : (if negb (bool_decide (is_Some (files w !! dir)) || bool_decide (dir ∈ dirs w))
                  then mkdirSync_recursive dir else ret tt) w
                 = (Returned tt, ensure_dir dir w)).
  { unfold ensure_dir. by destruct (_ || _). }
  rewrite Hdir. unfold bind. rewrite for_each_writes. unfold ret.
  rewrite write_all_record by done. reflexivity.
Qed.

(** *** Reading back what was written *)




Lemma write_all_other dir entries fs p :
  (forall e, e ∈ entries -> p <> join dir (fst e)) ->
  write_all dir entries fs !! p = fs !! p.
Proof.
  revert fs. induction entries as [|e entries IH]; intros fs Hne; [done|].
  simpl. rewrite IH.
  - apply lookup_insert_ne. intros Heq. apply (Hne e); [by left | done].
  - intros e' He'. apply Hne. by right.
Qed.




(** *** Restoring *)








Lemma files_ensure_dir dir w : files (ensure_dir dir w) = files w.
Proof. unfold ensure_dir. by destruct (_ || _). Qed.



(** *** Round trip *)


End CodecFacts.

(** ** Decoding *)

Module DecodeFacts.

Import StringFacts Layout JsonFacts CodecFacts JsonSidecar Codec Decode.





Lemma reviver_other sidecarDir key v w :
  match v with JStr _ => False | _ => True end ->
  reviver sidecarDir key v w = (Returned v, w).
Proof. by destruct v. Qed.

Lemma decode_leaf_console w c dir s :
  decode_leaf (with_console c w) dir s = decode_leaf w dir s.
Proof. reflexivity. Qed.

Lemma warnings_console w c dir s : warnings (with_console c w) dir s = warnings w dir s.
Proof. reflexivity. Qed.

Lemma readable_console w c dir s : readable (with_console c w) dir s = readable w dir s.
Proof. reflexivity. Qed.





End DecodeFacts.

(** ** Sidecar files *)

Module SidecarFacts.

Import StringFacts Layout JsonFacts CodecFacts DecodeFacts JsonSidecar Codec Decode.


Lemma write_all_mono dir entries fs p :
  is_Some (fs !! p) -> is_Some (write_all dir entries fs !! p).
Proof.
  revert fs. induction entries as [|e entries IH]; intros fs Hp; [done|].
  simpl. apply IH. destruct (decide (join dir (fst e) = p)) as [<-|Hne].
  - rewrite lookup_insert_eq. eauto.
  - by rewrite lookup_insert_ne.
Qed.





End SidecarFacts.

(** ** The cache *)

Module CacheFacts.

Import StringFacts Layout JsonFacts CodecFacts DecodeFacts SidecarFacts.
Import RequestCache Cache.

Section WithEnv.

Context (E : Env).

(** *** The lookup *)

Lemma getCachedResponse_spec (url : string) (body : json) (w : world) :
  getCachedResponse E url body w = (Returned (stored_entry E url body w), w).
Proof.
  unfold getCachedResponse, stored_entry.
  generalize (meta (getCachePaths E (getCacheKey url body))).
  generalize (response (getCachePaths E (getCacheKey url body))).
  intros pr pm. unfold bind at 1. unfold existsSync at 1.
  destruct (files w !! pm) as [metaText|] eqn:Hmeta;
    destruct (bool_decide (pm ∈ dirs w)) eqn:Hmdir; simpl;
    try reflexivity; unfold bind at 1; unfold existsSync at 1;
    destruct (files w !! pr) as [responseText|] eqn:Hresponse;
    destruct (bool_decide (pr ∈ dirs w)) eqn:Hrdir; simpl;
    try reflexivity; unfold try_catch, bind, readFileSync; rewrite ?Hmeta;
    try reflexivity;
    destruct (Json.parse metaText); try reflexivity; rewrite ?Hresponse;
    try reflexivity; try (by destruct (Json.parse responseText)).
Qed.


(** *** The store *)

Lemma writeFile_spec filePath value options w :
  JsonSidecar.writeFile filePath value options w
  = (Returned tt,
     with_files
       (<[filePath :=
            Json.stringify_indent2
              (map_strings (Codec.encode_leaf (JsonSidecar.resolve_threshold options)) value)]>
          (Codec.write_all (JsonSidecar.resolve_dir filePath options)
             (Codec.recorded (JsonSidecar.resolve_threshold options) value) (files w)))
       (Codec.ensure_dir (JsonSidecar.resolve_dir filePath options) w)).
Proof.
  unfold JsonSidecar.writeFile, bind. rewrite stringify_spec.
  unfold writeFileSync. simpl. by rewrite files_ensure_dir.
Qed.

Lemma mkdir_if_absent dir w :
  (if negb (bool_decide (is_Some (files w !! dir)) || bool_decide (dir ∈ dirs w))
   then mkdirSync_recursive dir else ret tt) w
  = (Returned tt, Codec.ensure_dir dir w).
Proof.
  unfold Codec.ensure_dir.
  by destruct (bool_decide (is_Some (files w !! dir)) || bool_decide (dir ∈ dirs w)).
Qed.

Lemma ensure_dir_step dir w :
  (present <- existsSync dir ;;
   if negb present then mkdirSync_recursive dir else ret tt) w
  = (Returned tt, Codec.ensure_dir dir w).
Proof. unfold bind, existsSync, Codec.ensure_dir. by destruct (_ || _). Qed.

Lemma cacheResponse_spec url requestBody captured stackInfo w :
  exists w',
    cacheResponse E url requestBody captured stackInfo w = (Returned tt, w')
    /\ files w'
       = stored_files E url requestBody captured
           (match stackInfo with Some s => s | None => getStackTrace E end) (files w)
    /\ console w' = console w /\ now w' = now w /\ requests w' = requests w.
Proof.
  unfold cacheResponse.
  set (key := getCacheKey url requestBody).
  set (paths := getCachePaths E key).
  set (stack := match stackInfo with Some s => s | None => getStackTrace E end).
  eexists. split.
  - unfold bind at 1. unfold existsSync at 1. unfold bind at 1.
    rewrite mkdir_if_absent.
    unfold bind at 1. unfold writeFileSync at 1.
    unfold bind at 1. unfold existsSync at 1. unfold bind at 1.
    rewrite mkdir_if_absent.
    unfold bind at 1. rewrite writeFile_spec. rewrite writeFile_spec. reflexivity.
  - simpl. rewrite ?files_ensure_dir. simpl. rewrite ?files_ensure_dir.
    split; [reflexivity|].
    unfold Codec.ensure_dir.
    repeat (match goal with
            | |- context [if ?b then _ else _] => destruct b
            end; simpl); done.
Qed.

Lemma stored_files_response url requestBody captured stack fs :
  stored_files E url requestBody captured stack fs
    !! response (getCachePaths E (getCacheKey url requestBody))
  = Some (Json.stringify_indent2
            (map_strings (Codec.encode_leaf JsonSidecar.DEFAULT_THRESHOLD)
               (response_object captured))).
Proof. apply lookup_insert_eq. Qed.

Lemma insert_mono (fs : gmap path string) p q text :
  is_Some (fs !! p) -> is_Some (<[q := text]> fs !! p).
Proof.
  intros Hp. destruct (decide (q = p)) as [->|Hne].
  - rewrite lookup_insert_eq. eauto.
  - by rewrite lookup_insert_ne.
Qed.

Lemma stored_files_present url requestBody captured stack fs :
  let paths := getCachePaths E (getCacheKey url requestBody) in
  is_Some (stored_files E url requestBody captured stack fs !! meta paths)
  /\ is_Some (stored_files E url requestBody captured stack fs !! request paths)
  /\ is_Some (stored_files E url requestBody captured stack fs !! response paths).
Proof.
  intros paths. unfold stored_files. fold paths. repeat split.
  - apply insert_mono, write_all_mono, insert_mono, write_all_mono.
    rewrite lookup_insert_eq. eauto.
  - apply insert_mono, write_all_mono. rewrite lookup_insert_eq. eauto.
  - rewrite lookup_insert_eq. eauto.
Qed.

End WithEnv.

(** *** The key *)

(** The key is the first sixteen hexadecimal digits of the SHA-256 of the
    UTF-8 bytes of the URL followed by those of the serialised normalised
    body. *)
Lemma getCacheKey_digest url body :
  getCacheKey url body
  = JsString.slice_to 16
      (Sha256.hex (Sha256.digest
         (Sha256.utf8 url ++ Sha256.utf8 (Json.stringify (normalizeRequestBody body)))%list)).
Proof. reflexivity. Qed.

Lemma assign_all (props acc : list (string * json)) :
  distinct_keys (List.map fst (acc ++ props)) = true ->
  forallb (fun kv => negb (String.eqb (fst kv) "__proto__")) props = true ->
  fold_left (fun normalized kv => Json.assign_prop (fst kv) (snd kv) normalized) props acc
  = (acc ++ props)%list.
Proof.
  revert acc. induction props as [|[k x] props IH]; intros acc Hkeys Hproto.
  - by rewrite List.app_nil_r.
  - simpl in Hproto. apply andb_true_iff in Hproto as [Hk Hproto].
    apply negb_true_iff in Hk. simpl. unfold Json.assign_prop at 2. rewrite Hk.
    rewrite (define_prop_fresh k x acc (fresh_key _ _ _ _ Hkeys)).
    rewrite IH; [by rewrite <- List.app_assoc | by rewrite <- List.app_assoc | done].
Qed.

(** The normalisation returns a body that is not an array as it is. *)
Lemma normalizeRequestBody_identity body :
  match body with
  | JArr _ => False
  | JObj props => plain_keys props = true
  | _ => True
  end ->
  normalizeRequestBody body = body.
Proof.
  destruct body as [| b | n | s | items | props]; try done.
  - intros _. by destruct b.
  - intros _. unfold normalizeRequestBody. simpl. by rewrite orb_true_r.
  - intros _. unfold normalizeRequestBody. simpl. by rewrite orb_true_r.
  - intros [Hkeys Hproto]%andb_true_iff. unfold normalizeRequestBody. simpl.
    f_equal. by apply (assign_all props []).
Qed.

End CacheFacts.

(** * The properties of the specification *)

Import StringFacts Layout JsonFacts CodecFacts DecodeFacts SidecarFacts.
Import JsonSidecar Codec Decode RequestCache Cache CacheFacts Samples.

(** ** The cache *)

(** C1: a fresh hit does not serve the body of the live response when a
    string of that body was externalized.  A POST with the body
    [{"model":"x"}] is answered by the transport with status 200 and the
    body [{"data":"A...A"}], whose string has 1001 characters.  The first
    call of the wrapper reaches the transport once, returns the live
    response and stores it; [cacheResponse] writes the snapshot with
    [JsonSidecar.writeFile].  The second call is a hit (the transport is
    not called again) and [getCachedResponse] reads the snapshot with a
    plain [JSON.parse]: the response served has the status, the status
    text and the headers of the live one, and the body
    [{"data":"__SIDECAR__:23d2ce40d262"}], which is not the live body. *)
Theorem fresh_hit_serves_placeholder :
  twice (answering big_answer 5) (InputString "https://example/api")
        (post (JObj [("model", JStr "x")])) empty_world
  = ((Returned big_answer, 1, [Log "[CACHE MISS] x"]),
     (Returned (mkResponse 200 "OK" [("content-type", "application/json")]
                  (Json.stringify
                     (JObj [("data", JStr (SIDECAR_MARKER +:+ "23d2ce40d262"))]))),
      1, [Log "[CACHE MISS] x"; Log "[CACHE HIT] x (age: 0s)"]))
  /\ body big_answer
     <> Json.stringify (JObj [("data", JStr (SIDECAR_MARKER +:+ "23d2ce40d262"))]).
Proof.
  split; [vm_compute; reflexivity|].
  apply String.eqb_neq. vm_compute. reflexivity.
Qed.

(** C3: the key of an array body is not the hash over the URL and the
    serialised body.  [normalizeRequestBody] copies the entries of the
    array [[1,2]] into an object, so the key of [[1,2]] is the key of
    [{"0":1,"1":2}], "9ebbe8e47286c197"; the hash over the URL and the
    text [[1,2]] starts with "d7918b6b4a6663e7". *)
Theorem array_body_keyed_as_object :
  let url := "https://example/api" in
  let body := JArr [JNum 1; JNum 2] in
  let object := JObj [("0", JNum 1); ("1", JNum 2)] in
  normalizeRequestBody body = object
  /\ getCacheKey url body = getCacheKey url object
  /\ getCacheKey url body = "9ebbe8e47286c197"
  /\ key_of_text url body = "d7918b6b4a6663e7".
Proof. vm_compute. repeat split. Qed.




(** C10: the lookup is read-only.  Whatever the files are (an entry, no
    entry, a corrupted entry), the world after [getCachedResponse] is the
    world before it: no file and no directory is created, changed or
    removed, and nothing is printed.  The store is the operation that
    writes: after [cacheResponse] the metadata, the request and the
    response of the key are files. *)
Theorem lookup_is_read_only (E : Env) (url : string) (body : json) (w : world) :
  snd (getCachedResponse E url body w) = w
  /\ forall (captured : CachedResponse) (stackInfo : option StackInfo),
       let paths := getCachePaths E (getCacheKey url body) in
       let w' := snd (cacheResponse E url body captured stackInfo w) in
       is_Some (files w' !! meta paths)
       /\ is_Some (files w' !! request paths)
       /\ is_Some (files w' !! response paths).
Proof.
  split.
  - by rewrite getCachedResponse_spec.
  - intros captured stackInfo paths w'.
    destruct (cacheResponse_spec E url body captured stackInfo w)
      as (w1 & Hrun & Hfiles & _).
    unfold w'. rewrite Hrun. simpl. rewrite Hfiles.
    apply stored_files_present.
Qed.

(** ** The sidecar codec *)











